(** * Exploratory data analysis of a MovieLens snapshot (eda_movielens.py)

    A shallow embedding of the script: the two pandas tables are lists of
    rows, a Series is a list of (index, value) pairs, the script's global
    variables live in a [world] record that is threaded through the stages,
    and everything the run shows to the outside (printed lines, plotted data,
    saved figures) is appended to an event trace.

    Numbers.  Identifiers and counts are [Z].  Rating values and every
    statistic derived from them are exact rationals in canonical form ([Qc])
    where the script has binary64 floats: [nan] is [None], the operations
    are the real-number ones, and rounding to a number of decimals is
    round-half-to-even on the exact value.  Binary rounding error is
    therefore outside the model: where the script rounds or prints a
    binary64 value it can land on the other neighbour of a tie, so the
    statements about rounded cells and printed decimals say which digits
    are possible (the numeral is within one unit of its last decimal of
    the exact value), not which of two neighbours is taken. *)

From Stdlib Require Import ZArith QArith Qcanon Qround Qabs.
From Stdlib Require Import String Ascii DecimalString.
From Stdlib Require Import List Bool Lia Lqa Sorted Permutation.
Import ListNotations.

Local Open Scope Z_scope.

(** ** Numbers *)

Module Num.

Definition Z2Qc (n : Z) : Qc := Q2Qc (inject_Z n).

Definition Qc_leb (x y : Qc) : bool := Qle_bool x y.

Definition Qc_ltb (x y : Qc) : bool := negb (Qle_bool y x).

(** [rint]: the nearest integer, ties going to the even neighbour. *)
Definition rint (x : Q) : Z :=
  let f := Qfloor x in
  match Qcompare (x - inject_Z f) (1 # 2) with
  | Lt => f
  | Gt => f + 1
  | Eq => if Z.even f then f else f + 1
  end.

Definition pow10 (d : nat) : Z := 10 ^ Z.of_nat d.

(** [numpy.round(x, d)]: scale, [rint], scale back. *)
Definition round (d : nat) (x : Qc) : Qc :=
  Q2Qc (inject_Z (rint (x * inject_Z (pow10 d))) / inject_Z (pow10 d)).

(** The square root of a rational is in general not rational.  A standard
    deviation is therefore carried as its square until it is rounded:
    [rint_sqrt w] is [rint] of the real number [sqrt w], computed with the
    integer square root ([sqrt w < n + 1/2] iff [w < n*n + n + 1/4]). *)
Definition rint_sqrt (w : Q) : Z :=
  let n := Z.sqrt (Qfloor w) in
  match Qcompare w (inject_Z (n * n + n) + (1 # 4)) with
  | Lt => n
  | Gt => n + 1
  | Eq => if Z.even n then n else n + 1
  end.

(** [numpy.round(sqrt(v), d)] for a variance [v]. *)
Definition round_sqrt (d : nat) (v : Qc) : Qc :=
  Q2Qc (inject_Z (rint_sqrt (v * inject_Z (pow10 d * pow10 d)))
        / inject_Z (pow10 d)).

(** *** Python number formatting *)

(** [f"{n}"] for an [int]. *)
Definition fmt_int (n : Z) : string := NilZero.string_of_int (Z.to_int n).

Fixpoint zeros (n : nat) : string :=
  match n with
  | O => EmptyString
  | S n' => String "0" (zeros n')
  end.

(** Decimal digits of a natural number, zero-padded on the left to at
    least [w] characters. *)
Definition pad_digits (w : nat) (k : Z) : string :=
  let s := NilZero.string_of_uint (N.to_uint (Z.to_N k)) in
  (zeros (w - String.length s) ++ s)%string.

(** [f"{x:.df}"] for a [float]: the value rounded half-to-even at [d]
    decimals, printed with exactly [d] digits after the point; a negative
    value keeps its sign even when it rounds to zero. *)
Definition fmt_f (d : nat) (x : Qc) : string :=
  let k := Z.abs (rint (x * inject_Z (pow10 d))) in
  let s := pad_digits (S d) k in
  let n := String.length s in
  let sign := if Qc_ltb x (Z2Qc 0) then "-"%string else EmptyString in
  (sign ++ substring 0 (n - d) s ++
     match d with
     | O => EmptyString
     | _ => String "." (substring (n - d) d s)
     end)%string.

End Num.

Import Num.

(** ** Tables *)

(** A binary64 column cell: a rational, or [None] for [nan]. *)
Definition float : Type := option Qc.

Definition of_int (n : Z) : float := Some (Z2Qc n).

(** ratings.csv: one row per rating record. *)
Module Ratings.
Record row : Type := mk {
  userId : Z;
  movieId : Z;
  rating : Qc;
  timestamp : Z
}.
End Ratings.

(** movies.csv: one row per item; [genres] is the "|"-joined category string.
    Every row has one: a row whose [genres] field is empty in the file is
    read as a missing value, on which line 117 raises [TypeError]; such
    files are outside the model. *)
Module Movies.
Record row : Type := mk {
  movieId : Z;
  title : string;
  genres : string
}.

(** The items frame: its rows as loaded, and the column [genres_list],
    which exists only once the genre analysis has assigned it. *)
Record frame : Type := mk_frame {
  rows : list row;
  genres_list : option (list (list string))
}.
End Movies.

(** The three aggregated columns of a [groupby(...).agg(...)] frame. *)
Module Stats.
(** Before rounding; [std_sq] is the square of the [std] cell. *)
Record raw : Type := mk_raw {
  count : Z;
  mean : float;
  std_sq : float
}.

Record row : Type := mk {
  num_ratings : Z;
  avg_rating : float;
  rating_std : float
}.
End Stats.

(** A row of [movie_popularity] after the merge with the titles. *)
Module Popularity.
Record row : Type := mk {
  movieId : Z;
  stats : Stats.row;
  title : string
}.

Definition num_ratings (r : row) : Z := Stats.num_ratings (stats r).
Definition avg_rating (r : row) : float := Stats.avg_rating (stats r).
End Popularity.

(** A Series: index labels paired with values, in frame order. *)
Definition Series (K V : Type) : Type := list (K * V).

Definition index {K V : Type} (s : Series K V) : list K := map fst s.
Definition values {K V : Type} (s : Series K V) : list V := map snd s.

(** ** Generic table operations *)

Section ListOps.
Context {A : Type}.

(** Stable insertion sort: [x] goes in front of the first element it is
    [leb] to, so elements that compare equal keep their input order. *)
Fixpoint insert_by (leb : A -> A -> bool) (x : A) (l : list A) : list A :=
  match l with
  | [] => [x]
  | y :: l' => if leb x y then x :: y :: l' else y :: insert_by leb x l'
  end.

Fixpoint sort_by (leb : A -> A -> bool) (l : list A) : list A :=
  match l with
  | [] => []
  | x :: l' => insert_by leb x (sort_by leb l')
  end.

(** Distinct values in order of first appearance ([Series.unique], the
    key order of a [dict] filled from left to right). *)
Fixpoint unique (eqb : A -> A -> bool) (l : list A) : list A :=
  match l with
  | [] => []
  | x :: l' => x :: filter (fun y => negb (eqb x y)) (unique eqb l')
  end.

Definition count_if (p : A -> bool) (l : list A) : Z :=
  Z.of_nat (length (filter p l)).

(** [df.nlargest(n, col)], [keep='first']: the first [n] rows of the frame
    sorted by [col] descending, rows of equal [col] in frame order.  (When
    the frame has no more than [n] rows pandas returns all of them sorted
    with its default sort, whose order among equal [col] is not fixed; the
    rows selected are the same.) *)
Definition nlargest (n : nat) (col : A -> Z) (l : list A) : list A :=
  firstn n (sort_by (fun a b => col b <=? col a) l).
End ListOps.

(** [sum(l)] over integers. *)
Definition Zsum (l : list Z) : Z := fold_right Z.add 0 l.

Definition isin (x : Z) (l : list Z) : bool := existsb (Z.eqb x) l.

(** [Series.nunique()] *)
Definition nunique (ks : list Z) : Z := Z.of_nat (length (unique Z.eqb ks)).

(** [df.groupby(key)]: the groups in ascending key order, each holding its
    rows in frame order. *)
Definition groupby {R : Type} (key : R -> Z) (df : list R) : Series Z (list R) :=
  map (fun k => (k, filter (fun r => key r =? k) df))
      (sort_by Z.leb (unique Z.eqb (map key df))).

(** [df.groupby(key).size()] *)
Definition groupby_size {R : Type} (key : R -> Z) (df : list R) : Series Z Z :=
  map (fun g => (fst g, Z.of_nat (length (snd g)))) (groupby key df).

Definition fsum (xs : list Qc) : Qc := fold_right Qcplus (Z2Qc 0) xs.

Definition sq (x : Qc) : Qc := (x * x)%Qc.

Definition mean (xs : list Qc) : Qc := (fsum xs / Z2Qc (Z.of_nat (length xs)))%Qc.

(** The sample variance (divisor [n - 1]): the square of pandas' [std]. *)
Definition sample_variance (xs : list Qc) : Qc :=
  (fsum (map (fun x => sq (x - mean xs)) xs) / Z2Qc (Z.of_nat (length xs) - 1))%Qc.

(** ['count'], ['mean'] and ['std'] of a group's values; the mean of no
    value and the standard deviation of fewer than two are [nan]. *)
Definition agg_count_mean_std (xs : list Qc) : Stats.raw :=
  let n := Z.of_nat (length xs) in
  {| Stats.count := n;
     Stats.mean := if n =? 0 then None else Some (mean xs);
     Stats.std_sq := if n <=? 1 then None else Some (sample_variance xs) |}.

(** [DataFrame.round(d)]: integer columns are left alone, [nan] stays [nan]. *)
Definition round_stats (d : nat) (s : Stats.raw) : Stats.row :=
  {| Stats.num_ratings := Stats.count s;
     Stats.avg_rating := option_map (round d) (Stats.mean s);
     Stats.rating_std := option_map (round_sqrt d) (Stats.std_sq s) |}.

(** [ratings_df.groupby(key).agg({'rating': ['count','mean','std']}).round(2)] *)
Definition rating_stats (key : Ratings.row -> Z) (df : list Ratings.row)
  : Series Z Stats.row :=
  map (fun g => (fst g,
                 round_stats 2 (agg_count_mean_std (map Ratings.rating (snd g)))))
      (groupby key df).

(** [left.merge(right, on='movieId')]: inner join; every left row, in left
    order, is paired with each right row of the same key, in right order. *)
Definition merge (left : Series Z Stats.row) (right : list (Z * string))
  : list Popularity.row :=
  flat_map (fun l =>
              map (fun r => Popularity.mk (fst l) (snd l) (snd r))
                  (filter (fun r => fst r =? fst l) right))
           left.

(** [Series.value_counts()]: distinct values with their number of
    occurrences, most frequent first. *)
Definition value_counts (xs : list Qc) : Series Qc Z :=
  sort_by (fun a b => snd b <=? snd a)
          (map (fun v => (v, count_if (Qc_eq_bool v) xs)) (unique Qc_eq_bool xs)).

(** [Series.sort_index()] *)
Definition sort_index {V : Type} (s : Series Qc V) : Series Qc V :=
  sort_by (fun a b => Qc_leb (fst a) (fst b)) s.

(** [Series.dropna()] *)
Definition dropna {K : Type} (s : Series K float) : Series K float :=
  filter (fun kv => match snd kv with Some _ => true | None => false end) s.

(** ** Strings and tallies *)

(** [str.split(sep)] for a one-character separator. *)
Fixpoint split (sep : ascii) (s : string) : list string :=
  match s with
  | EmptyString => [EmptyString]
  | String c s' =>
      if Ascii.eqb c sep then EmptyString :: split sep s'
      else match split sep s' with
           | [] => [String c EmptyString]
           | w :: ws => String c w :: ws
           end
  end.

(** [collections.Counter]: labels in order of first insertion. *)
Fixpoint counter_incr (x : string) (c : list (string * Z)) : list (string * Z) :=
  match c with
  | [] => [(x, 1)]
  | (y, n) :: c' =>
      if String.eqb x y then (y, n + 1) :: c' else (y, n) :: counter_incr x c'
  end.

Definition Counter (l : list string) : list (string * Z) :=
  fold_left (fun c x => counter_incr x c) l [].

(** [c[x]]: the count of a label, 0 for one never seen. *)
Fixpoint counter_get (c : list (string * Z)) (x : string) : Z :=
  match c with
  | [] => 0
  | (y, n) :: c' => if String.eqb x y then n else counter_get c' x
  end.

(** [Counter.most_common(n)]: [sorted(items, key=count, reverse=True)[:n]];
    the sort is stable, so equal counts stay in insertion order. *)
Definition most_common (n : nat) (c : list (string * Z)) : list (string * Z) :=
  firstn n (sort_by (fun a b => snd b <=? snd a) c).

(** ** The run: state, output and exceptions *)

(** An x tick of a bar chart: a rating value or a genre label. *)
Inductive label : Type :=
| Num (x : Qc)
| Str (s : string).

(** What a run shows to the outside.  Only the data handed to the plotting
    calls is kept; titles, colours and axis scales are presentation. *)
Inductive event : Type :=
| Print (line : string)
| Bar (x : list label) (height : list Z)
| Hist (x : list float) (bins : Z)
| Scatter (x y : list float)
| Savefig (fname : string).

Inductive exn : Type :=
| FileNotFoundError
| ZeroDivisionError
| SystemExit.

Inductive result (A : Type) : Type :=
| Ok (a : A)
| Raise (e : exn).

Arguments Ok {A} a.
Arguments Raise {A} e.

(** The global variables that outlive the statement which assigns them, and
    the output produced so far.  A variable holds an empty placeholder until
    the script assigns it. *)
Record world : Type := mk_world {
  ratings_df : list Ratings.row;
  movies_df : Movies.frame;
  n_users : Z;
  n_movies_rated : Z;
  n_ratings : Z;
  n_movies_total : Z;
  movie_popularity : list Popularity.row;
  user_stats : Series Z Stats.row;
  out : list event
}.

Definition start : world :=
  mk_world [] (Movies.mk_frame [] None) 0 0 0 0 [] [] [].

Definition set_ratings_df (r : list Ratings.row) (w : world) : world :=
  mk_world r (movies_df w) (n_users w) (n_movies_rated w) (n_ratings w)
           (n_movies_total w) (movie_popularity w) (user_stats w) (out w).

(** The items frame as parsed from the file has no [genres_list] column. *)
Definition set_movies_df (m : list Movies.row) (w : world) : world :=
  mk_world (ratings_df w) (Movies.mk_frame m None) (n_users w) (n_movies_rated w)
           (n_ratings w) (n_movies_total w) (movie_popularity w) (user_stats w)
           (out w).

Definition set_counts (u mr n mt : Z) (w : world) : world :=
  mk_world (ratings_df w) (movies_df w) u mr n mt
           (movie_popularity w) (user_stats w) (out w).

Definition set_movie_popularity (p : list Popularity.row) (w : world) : world :=
  mk_world (ratings_df w) (movies_df w) (n_users w) (n_movies_rated w) (n_ratings w)
           (n_movies_total w) p (user_stats w) (out w).

Definition set_user_stats (s : Series Z Stats.row) (w : world) : world :=
  mk_world (ratings_df w) (movies_df w) (n_users w) (n_movies_rated w) (n_ratings w)
           (n_movies_total w) (movie_popularity w) s (out w).

(** [movies_df['genres_list'] = col]: the frame gains (or overwrites) that
    column; its rows stay as they are. *)
Definition set_genres_list (col : list (list string)) (w : world) : world :=
  mk_world (ratings_df w) (Movies.mk_frame (Movies.rows (movies_df w)) (Some col))
           (n_users w) (n_movies_rated w) (n_ratings w)
           (n_movies_total w) (movie_popularity w) (user_stats w) (out w).

Definition add_event (e : event) (w : world) : world :=
  mk_world (ratings_df w) (movies_df w) (n_users w) (n_movies_rated w) (n_ratings w)
           (n_movies_total w) (movie_popularity w) (user_stats w) (out w ++ [e]).

(** State and exceptions: a statement maps the world to a new world and
    either a value or the exception it raised; the world reached when an
    exception is raised is kept (what was printed stays printed). *)
Definition M (A : Type) : Type := world -> world * result A.

Definition ret {A : Type} (a : A) : M A := fun w => (w, Ok a).

Definition bind {A B : Type} (c : M A) (k : A -> M B) : M B :=
  fun w =>
    match c w with
    | (w', Ok a) => k a w'
    | (w', Raise e) => (w', Raise e)
    end.

Definition raise {A : Type} (e : exn) : M A := fun w => (w, Raise e).

Definition get : M world := fun w => (w, Ok w).

Definition assign (f : world -> world) : M unit := fun w => (f w, Ok tt).

Definition emit (e : event) : M unit := assign (add_event e).

Definition print (s : string) : M unit := emit (Print s).

Declare Scope py_scope.
Delimit Scope py_scope with py.
Notation "x <- c ;; k" := (bind c (fun x => k))
  (at level 61, c at next level, right associativity) : py_scope.
Notation "c ;; k" := (bind c (fun _ => k))
  (at level 61, right associativity) : py_scope.
Local Open Scope py_scope.

(** [a / b] on two [int]s: true division, which raises on a zero divisor. *)
Definition truediv (a b : Z) : M Qc :=
  if b =? 0 then raise ZeroDivisionError else ret (Z2Qc a / Z2Qc b)%Qc.

Definition nl : string := String "010" EmptyString.

(** ** Loader (lines 8-14) *)

(** The working directory as the script sees it: each of the two files is
    absent ([None]) or holds a table that parses. *)
Record filesystem : Type := mk_fs {
  ratings_csv : option (list Ratings.row);
  movies_csv : option (list Movies.row)
}.

(** [pd.read_csv(path)]: the parsed table, or [FileNotFoundError]. *)
Definition read_csv {T : Type} (file : option T) : M T :=
  match file with
  | Some t => ret t
  | None => raise FileNotFoundError
  end.

(** [try: ... except FileNotFoundError: ...] *)
Definition try_except_FileNotFoundError (body handler : M unit) : M unit :=
  fun w =>
    match body w with
    | (w', Raise FileNotFoundError) => handler w'
    | r => r
    end.

Definition loader (fs : filesystem) : M unit :=
  try_except_FileNotFoundError
    (ratings_df <- read_csv (ratings_csv fs) ;;
     assign (set_ratings_df ratings_df) ;;
     movies_df <- read_csv (movies_csv fs) ;;
     assign (set_movies_df movies_df) ;;
     print "Successfully loaded MovieLens dataset")
    (print "ERROR: Dataset files not found." ;;
     raise SystemExit).

(** ** Summary statistics (lines 17-29) *)

Definition summary_statistics : M unit :=
  print (nl ++ "=== DATASET OVERVIEW ===") ;;
  w <- get ;;
  let n_users := nunique (map Ratings.userId (ratings_df w)) in
  let n_movies_rated := nunique (map Ratings.movieId (ratings_df w)) in
  let n_ratings := Z.of_nat (length (ratings_df w)) in
  let n_movies_total := nunique (map Movies.movieId (Movies.rows (movies_df w))) in
  assign (set_counts n_users n_movies_rated n_ratings n_movies_total) ;;
  print ("Users: " ++ fmt_int n_users) ;;
  print ("Movies (total): " ++ fmt_int n_movies_total) ;;
  print ("Movies (rated): " ++ fmt_int n_movies_rated) ;;
  print ("Total ratings: " ++ fmt_int n_ratings) ;;
  q <- truediv n_ratings (n_users * n_movies_rated) ;;
  print ("Sparsity: " ++ fmt_f 4 (1 - q)) ;;
  a <- truediv n_ratings n_users ;;
  print ("Avg ratings per user: " ++ fmt_f 1 a) ;;
  b <- truediv n_ratings n_movies_rated ;;
  print ("Avg ratings per movie: " ++ fmt_f 1 b).

(** ** Distribution analyzer (lines 32-50) *)

Definition rating_counts (df : list Ratings.row) : Series Qc Z :=
  sort_index (value_counts (map Ratings.rating df)).

Definition user_activity (df : list Ratings.row) : Series Z Z :=
  groupby_size Ratings.userId df.

Definition distribution_analyzer : M unit :=
  w <- get ;;
  let rating_counts := rating_counts (ratings_df w) in
  emit (Bar (map Num (index rating_counts)) (values rating_counts)) ;;
  let user_activity := user_activity (ratings_df w) in
  emit (Hist (map of_int (values user_activity)) 30) ;;
  emit (Savefig "basic_distributions.png").

(** ** Popularity analyzer (lines 53-81) *)

(** Lines 53-57: the per-item aggregate, [movieId] back as a column. *)
Definition movie_stats (df : list Ratings.row) : Series Z Stats.row :=
  rating_stats Ratings.movieId df.

(** [movies_df[['movieId', 'title']]] *)
Definition movie_titles (m : Movies.frame) : list (Z * string) :=
  map (fun r => (Movies.movieId r, Movies.title r)) (Movies.rows m).

(** Line 60. *)
Definition merged_popularity (df : list Ratings.row) (m : Movies.frame)
  : list Popularity.row :=
  merge (movie_stats df) (movie_titles m).

Definition popularity_analyzer : M unit :=
  w <- get ;;
  let movie_popularity := merged_popularity (ratings_df w) (movies_df w) in
  assign (set_movie_popularity movie_popularity) ;;
  emit (Scatter (map (fun r => of_int (Popularity.num_ratings r)) movie_popularity)
                (map Popularity.avg_rating movie_popularity)) ;;
  emit (Savefig "popularity_vs_rating.png").

(** ** User behavior analyzer (lines 84-111) *)

(** [frame[name]]: one column of an aggregate, as a Series on its index. *)
Definition column {V : Type} (f : Stats.row -> V) (s : Series Z Stats.row)
  : Series Z V :=
  map (fun kv => (fst kv, f (snd kv))) s.

Definition user_behavior_analyzer : M unit :=
  w <- get ;;
  let user_stats := rating_stats Ratings.userId (ratings_df w) in
  assign (set_user_stats user_stats) ;;
  emit (Hist (values (column Stats.avg_rating user_stats)) 20) ;;
  emit (Hist (values (dropna (column Stats.rating_std user_stats))) 20) ;;
  emit (Scatter (map of_int (values (column Stats.num_ratings user_stats)))
                (values (column Stats.avg_rating user_stats))) ;;
  emit (Savefig "user_behavior_analysis.png").

(** ** Genre analyzer (lines 114-129) *)

(** Line 114's right-hand side. *)
Definition split_genres (m : Movies.frame) : list (list string) :=
  map (fun r => split "|" (Movies.genres r)) (Movies.rows m).

(** Lines 115-117: [all_genres.extend(genres)] for every row. *)
Definition all_genres (genres_list : list (list string)) : list string :=
  fold_left (fun acc genres => acc ++ genres) genres_list [].

Definition genre_counts (genres_list : list (list string)) : list (string * Z) :=
  Counter (all_genres genres_list).

Definition top_genres (genres_list : list (list string)) : list (string * Z) :=
  most_common 10 (genre_counts genres_list).

Definition genre_analyzer : M unit :=
  w <- get ;;
  let genres_list := split_genres (movies_df w) in
  assign (set_genres_list genres_list) ;;
  let top_genres := top_genres genres_list in
  emit (Bar (map Str (map fst top_genres)) (map snd top_genres)) ;;
  emit (Savefig "genre_distribution.png").

(** ** Bias insight reporter (lines 132-144) *)

Definition power_users (user_stats : Series Z Stats.row) : list Z :=
  index (nlargest 20 (fun kv => Stats.num_ratings (snd kv)) user_stats).

Definition popular_movies_ids (movie_popularity : list Popularity.row) : list Z :=
  map Popularity.movieId (nlargest 50 Popularity.num_ratings movie_popularity).

(** [ratings_df[ratings_df[col].isin(ids)].shape[0]] *)
Definition rows_isin (col : Ratings.row -> Z) (ids : list Z) (df : list Ratings.row) : Z :=
  count_if (fun r => isin (col r) ids) df.

(** [hits / n_ratings * 100] *)
Definition percent_of (hits n : Z) : M Qc :=
  q <- truediv hits n ;;
  ret (q * Z2Qc 100)%Qc.

Definition bias_insight_reporter : M unit :=
  print (nl ++ "=== FILTERING INSIGHTS ===") ;;
  w <- get ;;
  print ("Matrix dimensions: " ++ fmt_int (n_users w) ++ " users × "
         ++ fmt_int (n_movies_rated w) ++ " movies") ;;
  q <- truediv (n_ratings w) (n_users w * n_movies_rated w) ;;
  print ("Matrix sparsity: " ++ fmt_f 2 ((1 - q) * Z2Qc 100) ++ "%") ;;
  let power_users := power_users (user_stats w) in
  let popular_movies_ids := popular_movies_ids (movie_popularity w) in
  p <- percent_of (rows_isin Ratings.userId power_users (ratings_df w)) (n_ratings w) ;;
  print ("Power users (top 20): " ++ fmt_int (Z.of_nat (length power_users))
         ++ " users account for " ++ fmt_f 1 p ++ "% of ratings") ;;
  p <- percent_of (rows_isin Ratings.movieId popular_movies_ids (ratings_df w))
                  (n_ratings w) ;;
  print ("Popular movies (top 50): " ++ fmt_int (Z.of_nat (length popular_movies_ids))
         ++ " movies account for " ++ fmt_f 1 p ++ "% of ratings").

(** ** Closing summary (lines 147-152) *)

Definition summary : M unit :=
  print (nl ++ "=== SUMMARY ===") ;;
  print "Generated visualizations:" ;;
  print "- basic_distributions.png: Rating patterns & user activity" ;;
  print "- popularity_vs_rating.png: Movie popularity bias analysis" ;;
  print "- user_behavior_analysis.png: User rating behavior & biases" ;;
  print "- genre_distribution.png: Content distribution".

(** ** The whole script *)

(** The stages that follow the loader, in source order. *)
Definition stages : list (M unit) :=
  [ summary_statistics; distribution_analyzer; popularity_analyzer;
    user_behavior_analyzer; genre_analyzer; bias_insight_reporter; summary ].

Definition seq (c k : M unit) : M unit := c ;; k.

Definition main (fs : filesystem) : M unit :=
  fold_right seq (ret tt) (loader fs :: stages).

(** A run starts with nothing bound and nothing printed. *)
Definition run (fs : filesystem) : world * result unit := main fs start.

(** ** Vocabulary of the statements *)

(** A statement keeps a relation between the world it starts in and the
    world it leaves, whether it returns or raises. *)
Definition keeps (R : world -> world -> Prop) {A : Type} (c : M A) : Prop :=
  forall w, R w (fst (c w)).

(** Both source tables are what they were. *)
Definition same_tables (w w' : world) : Prop :=
  ratings_df w' = ratings_df w /\ movies_df w' = movies_df w.

(** The ratings table and the loaded rows of the items table are what they
    were; a column may have been added to the items frame. *)
Definition same_rows (w w' : world) : Prop :=
  ratings_df w' = ratings_df w /\
  Movies.rows (movies_df w') = Movies.rows (movies_df w).

(** A descending stable sort of [l] by [col]: the same rows, largest [col]
    first, rows of equal [col] in the order they have in [l]. *)
Definition stable_desc {A : Type} (col : A -> Z) (l s : list A) : Prop :=
  Permutation s l /\
  StronglySorted (fun a b => col b <= col a) s /\
  forall c, filter (fun a => col a =? c) s = filter (fun a => col a =? c) l.

(** The worked example of the specification: three ratings by two users of
    two items. *)
Definition example_ratings : list Ratings.row :=
  [ Ratings.mk 1 1 (Z2Qc 5) 0; Ratings.mk 1 2 (Z2Qc 3) 0; Ratings.mk 2 1 (Z2Qc 4) 0 ].

Definition example_movies : list Movies.row :=
  [ Movies.mk 1 "T1" "Action"; Movies.mk 2 "T2" "Action|Comedy" ].

Definition example_fs : filesystem :=
  mk_fs (Some example_ratings) (Some example_movies).

(** The text of a fixed-point numeral with [d] decimals: an optional minus
    sign and the digits of [k], the magnitude in units of the last decimal,
    with the point in front of the last [d] of them. *)
Definition fixed_point (d : nat) (negative : bool) (k : Z) : string :=
  let s := pad_digits (S d) k in
  let n := String.length s in
  ((if negative then "-" else "") ++ substring 0 (n - d) s ++
     match d with
     | O => EmptyString
     | _ => String "." (substring (n - d) d s)
     end)%string.

(** The number that such a numeral denotes. *)
Definition fixed_point_value (d : nat) (negative : bool) (k : Z) : Q :=
  inject_Z (if negative then - k else k) / inject_Z (pow10 d).

(** The file names handed to [plt.savefig], in the order of the calls. *)
Fixpoint saved_figures (o : list event) : list string :=
  match o with
  | [] => []
  | Savefig fname :: o' => fname :: saved_figures o'
  | _ :: o' => saved_figures o'
  end.

(** The number of occurrences of a character in a string. *)
Fixpoint count_char (c : ascii) (s : string) : nat :=
  match s with
  | EmptyString => O
  | String c' s' => (if Ascii.eqb c' c then 1 else 0) + count_char c s'
  end.

(** ** Proof automation *)

Ltac push_inject_Z :=
  unfold Z.sub;
  repeat (rewrite inject_Z_plus || rewrite inject_Z_mult || rewrite inject_Z_opp);
  change (inject_Z 2) with 2%Q; change (inject_Z 1) with 1%Q.

(** * Properties *)

(** ** Number formatting on examples *)

Example fmt_f_quarter : fmt_f 4 (Q2Qc (1 # 4)) = "0.2500"%string.
Proof. reflexivity. Qed.

Example fmt_f_negative : fmt_f 1 (Q2Qc (- 1234 # 100)) = "-12.3"%string.
Proof. reflexivity. Qed.

Example fmt_f_tie_to_even : fmt_f 1 (Q2Qc (25 # 100)) = "0.2"%string.
Proof. reflexivity. Qed.

Example fmt_f_negative_zero : fmt_f 2 (Q2Qc (- 1 # 1000)) = "-0.00"%string.
Proof. reflexivity. Qed.

Example round_sqrt_two : round_sqrt 2 (Q2Qc 2) = Q2Qc (141 # 100).
Proof. apply Qc_is_canon. reflexivity. Qed.

Example split_example :
  split "|" "Action|Comedy" = ["Action"; "Comedy"]%string.
Proof. reflexivity. Qed.

Example split_empty_pieces : split "|" "a||b|" = ["a"; ""; "b"; ""]%string.
Proof. reflexivity. Qed.

Example top_genres_ties :
  map fst (top_genres [["a"; "b"]; ["b"; "c"]; ["c"; "b"]; ["a"]]%string)
  = ["b"; "a"; "c"]%string.
Proof. reflexivity. Qed.

(** ** Numbers *)

Lemma inject_Z_succ (z : Z) : (inject_Z (z + 1) == inject_Z z + 1)%Q.
Proof. rewrite inject_Z_plus. reflexivity. Qed.

Lemma Qfloor_bounds (x : Q) :
  (inject_Z (Qfloor x) <= x /\ x < inject_Z (Qfloor x) + 1)%Q.
Proof.
  split; [apply Qfloor_le|].
  rewrite <- inject_Z_succ. apply Qlt_floor.
Qed.

Lemma rint_error (x : Q) : (Qabs (inject_Z (rint x) - x) <= 1 # 2)%Q.
Proof.
  destruct (Qfloor_bounds x) as [Hlo Hhi].
  apply Qabs_Qle_condition. unfold rint.
  destruct (Qcompare_spec (x - inject_Z (Qfloor x)) (1 # 2)) as [He|Hl|Hg].
  - destruct (Z.even (Qfloor x)); rewrite ?inject_Z_succ; split; lra.
  - split; lra.
  - rewrite inject_Z_succ. split; lra.
Qed.

Lemma rint_inject_Z (z : Z) : rint (inject_Z z) = z.
Proof.
  unfold rint. rewrite Qfloor_Z.
  destruct (Qcompare_spec (inject_Z z - inject_Z z) (1 # 2)) as [He|Hl|Hg];
    [exfalso; lra | reflexivity | exfalso; lra].
Qed.

Lemma rint_comp (x y : Q) : (x == y)%Q -> rint x = rint y.
Proof.
  intros H. unfold rint. rewrite (Qfloor_comp _ _ H).
  assert (Hc : ((x - inject_Z (Qfloor y)) ?= (1 # 2))%Q
               = ((y - inject_Z (Qfloor y)) ?= (1 # 2))%Q).
  { apply Qcompare_comp; [rewrite H|]; reflexivity. }
  rewrite Hc. reflexivity.
Qed.

Lemma rint_mono (x y : Q) : (x <= y)%Q -> rint x <= rint y.
Proof.
  intros Hxy.
  destruct (Qfloor_bounds x) as [Hx1 Hx2].
  destruct (Qfloor_bounds y) as [Hy1 Hy2].
  pose proof (Qfloor_resp_le _ _ Hxy) as Hfl.
  unfold rint.
  destruct (Z.eq_dec (Qfloor x) (Qfloor y)) as [E|Hne].
  - rewrite <- E in *.
    destruct (Qcompare_spec (x - inject_Z (Qfloor x)) (1 # 2)) as [Ex|Lx|Gx];
      destruct (Qcompare_spec (y - inject_Z (Qfloor x)) (1 # 2)) as [Ey|Ly|Gy];
      try (exfalso; lra); destruct (Z.even (Qfloor x)); lia.
  - assert (Hlt : Qfloor x + 1 <= Qfloor y) by lia.
    destruct (Qcompare_spec (x - inject_Z (Qfloor x)) (1 # 2));
      destruct (Qcompare_spec (y - inject_Z (Qfloor y)) (1 # 2));
      destruct (Z.even (Qfloor x)); destruct (Z.even (Qfloor y)); lia.
Qed.

Lemma pow10_pos (d : nat) : 0 < pow10 d.
Proof. unfold pow10. apply Z.pow_pos_nonneg; lia. Qed.

Lemma inject_Z_pos (z : Z) : 0 < z -> (0 < inject_Z z)%Q.
Proof. intros H. change 0%Q with (inject_Z 0). rewrite <- Zlt_Qlt. exact H. Qed.

(** Rounding to [d] decimals leaves a number with at most [d] decimals
    alone. *)
Lemma round_exact (d : nat) (x : Qc) (z : Z) :
  (x * inject_Z (pow10 d) == inject_Z z)%Q -> round d x = x.
Proof.
  intros H. unfold round. apply Qc_is_canon.
  rewrite (rint_comp _ _ H), rint_inject_Z.
  unfold Q2Qc. cbn [this]. rewrite Qred_correct, <- H.
  pose proof (inject_Z_pos _ (pow10_pos d)) as Hp.
  field. lra.
Qed.

(** Rounding to [d] decimals moves a number by at most half a unit of the
    last decimal. *)
Lemma round_error (d : nat) (x : Qc) :
  (Qabs (inject_Z (rint (x * inject_Z (pow10 d))) / inject_Z (pow10 d) - x)
   <= (1 # 2) / inject_Z (pow10 d))%Q.
Proof.
  pose proof (inject_Z_pos _ (pow10_pos d)) as Hp.
  pose proof (rint_error (x * inject_Z (pow10 d))) as He.
  set (k := inject_Z (rint (x * inject_Z (pow10 d)))) in *.
  set (p := inject_Z (pow10 d)) in *.
  assert (Heq : (k / p - x == (k - x * p) / p)%Q) by (field; lra).
  rewrite Heq. unfold Qdiv. rewrite Qabs_Qmult.
  rewrite (Qabs_pos (/ p)) by (apply Qlt_le_weak, Qinv_lt_0_compat; exact Hp).
  apply Qmult_le_compat_r; [exact He|].
  apply Qlt_le_weak, Qinv_lt_0_compat; exact Hp.
Qed.


(** [rint_sqrt w] is an integer nearest to the square root of [w]:
    [k - 1/2 <= sqrt w <= k + 1/2], written without the root. *)
Lemma rint_sqrt_spec (w : Q) :
  (0 <= w)%Q ->
  let k := rint_sqrt w in
  0 <= k /\
  (4 * w <= inject_Z ((2 * k + 1) * (2 * k + 1)))%Q /\
  (k = 0 \/ (inject_Z ((2 * k - 1) * (2 * k - 1)) <= 4 * w)%Q).
Proof.
  intros Hw. cbv zeta.
  destruct (Qfloor_bounds w) as [Hlo Hhi].
  assert (Hf : 0 <= Qfloor w).
  { change 0 with (Qfloor 0). apply Qfloor_resp_le. exact Hw. }
  pose proof (Z.sqrt_spec (Qfloor w) Hf) as [Hs1 Hs2].
  pose proof (Z.sqrt_nonneg (Qfloor w)) as Hn.
  unfold rint_sqrt.
  generalize dependent (Z.sqrt (Qfloor w)). intros n Hs1 Hs2 Hn.
  assert (H1 : (inject_Z n * inject_Z n <= w)%Q).
  { eapply Qle_trans; [|exact Hlo]. rewrite <- inject_Z_mult, <- Zle_Qle. exact Hs1. }
  assert (H2 : (w < inject_Z n * inject_Z n + 2 * inject_Z n + 1)%Q).
  { eapply Qlt_le_trans; [exact Hhi|].
    assert (Hz : Qfloor w + 1 <= n * n + 2 * n + 1) by lia.
    rewrite Zle_Qle in Hz. revert Hz. push_inject_Z. intros Hz; exact Hz. }
  assert (Hn' : (0 <= inject_Z n)%Q).
  { change 0%Q with (inject_Z 0). rewrite <- Zle_Qle. exact Hn. }
  assert (Hn0 : n = 0 \/ (1 <= inject_Z n)%Q).
  { destruct (Z.eq_dec n 0) as [?|Hne]; [left; assumption|right].
    change 1%Q with (inject_Z 1). rewrite <- Zle_Qle. lia. }
  destruct (Qcompare_spec w (inject_Z (n * n + n) + (1 # 4))) as [He|Hl|Hg];
    [destruct (Z.even n)| |];
    revert He || revert Hl || revert Hg; push_inject_Z; intros Hc;
    (split; [lia|]); (split; [nra|]);
    try (right; nra);
    (destruct Hn0 as [?|Hn1]; [left; assumption|right; nra]).
Qed.

(** ** Sorting *)

Section SortBy.
Context {A : Type} (leb : A -> A -> bool).

Lemma insert_by_perm (x : A) (l : list A) :
  Permutation (insert_by leb x l) (x :: l).
Proof.
  induction l as [|y l IH]; simpl; [reflexivity|].
  destruct (leb x y); [reflexivity|].
  rewrite IH. apply perm_swap.
Qed.

Lemma sort_by_perm (l : list A) : Permutation (sort_by leb l) l.
Proof.
  induction l as [|x l IH]; simpl; [reflexivity|].
  rewrite insert_by_perm, IH. reflexivity.
Qed.

Lemma sort_by_In (x : A) (l : list A) : In x (sort_by leb l) <-> In x l.
Proof.
  split; apply Permutation_in; [|symmetry]; apply sort_by_perm.
Qed.

Lemma sort_by_length (l : list A) : length (sort_by leb l) = length l.
Proof. apply Permutation_length, sort_by_perm. Qed.

(** Stability: the elements of a class whose members all compare as tied
    come out in input order. *)
Lemma insert_by_filter (p : A -> bool) (x : A) (l : list A) :
  (forall y, p x = true -> p y = true -> leb x y = true) ->
  filter p (insert_by leb x l) = filter p (x :: l).
Proof.
  intros Htie. induction l as [|y l IH]; [reflexivity|].
  cbn [insert_by]. destruct (leb x y) eqn:Hxy; [reflexivity|].
  cbn [filter] in *. rewrite IH.
  destruct (p x) eqn:Hx; [|reflexivity].
  destruct (p y) eqn:Hy; [|reflexivity].
  rewrite (Htie y eq_refl Hy) in Hxy. discriminate.
Qed.

Lemma sort_by_stable (p : A -> bool) (l : list A) :
  (forall x y, p x = true -> p y = true -> leb x y = true) ->
  filter p (sort_by leb l) = filter p l.
Proof.
  intros Htie. induction l as [|x l IH]; [reflexivity|].
  cbn [sort_by]. rewrite insert_by_filter by (intros; apply Htie; assumption).
  cbn [filter]. rewrite IH. reflexivity.
Qed.

Hypothesis leb_total : forall a b, leb a b = true \/ leb b a = true.
Hypothesis leb_trans :
  forall a b c, leb a b = true -> leb b c = true -> leb a c = true.

Local Abbreviation le := (fun a b : A => leb a b = true).

Lemma insert_by_sorted (x : A) (l : list A) :
  StronglySorted le l -> StronglySorted le (insert_by leb x l).
Proof.
  induction 1 as [|y l Hs IH Hall]; cbn [insert_by].
  - constructor; constructor.
  - destruct (leb x y) eqn:Hxy.
    + constructor; [constructor; assumption|].
      constructor; [exact Hxy|].
      eapply Forall_impl; [|exact Hall].
      intros z Hz. exact (leb_trans _ _ _ Hxy Hz).
    + constructor; [exact IH|].
      assert (Hyx : le y x) by (destruct (leb_total x y); congruence).
      rewrite Forall_forall in *. intros z Hz.
      apply (Permutation_in _ (insert_by_perm x l)) in Hz.
      destruct Hz as [<-|Hz]; [exact Hyx|apply Hall; exact Hz].
Qed.

Lemma sort_by_sorted (l : list A) : StronglySorted le (sort_by leb l).
Proof.
  induction l as [|x l IH]; cbn [sort_by]; [constructor|].
  apply insert_by_sorted, IH.
Qed.

(** Inserting into a sorted list and then filtering is filtering and then
    inserting. *)
Lemma filter_insert_by (p : A -> bool) (x : A) (l : list A) :
  StronglySorted le l -> p x = true ->
  filter p (insert_by leb x l) = insert_by leb x (filter p l).
Proof.
  intros Hs Hx. induction Hs as [|y l Hs IH Hall]; cbn [insert_by filter].
  - rewrite Hx. reflexivity.
  - destruct (leb x y) eqn:Hxy.
    + cbn [filter]. rewrite Hx.
      destruct (p y); cbn [insert_by]; [rewrite Hxy; reflexivity|].
      assert (Hfl : Forall (le x) (filter p l)).
      { rewrite Forall_forall in *. intros z Hz. apply filter_In in Hz.
        exact (leb_trans _ _ _ Hxy (Hall z (proj1 Hz))). }
      destruct (filter p l) as [|z fl]; [reflexivity|].
      cbn [insert_by]. inversion Hfl as [|? ? Hxz _]; subst.
      cbv beta in Hxz. rewrite Hxz. reflexivity.
    + cbn [filter]. rewrite IH.
      destruct (p y); cbn [insert_by]; [rewrite Hxy|]; reflexivity.
Qed.

Lemma filter_sort_by (p : A -> bool) (l : list A) :
  filter p (sort_by leb l) = sort_by leb (filter p l).
Proof.
  induction l as [|x l IH]; [reflexivity|].
  cbn [sort_by filter]. destruct (p x) eqn:Hx.
  - cbn [sort_by]. rewrite <- IH.
    apply filter_insert_by; [apply sort_by_sorted|exact Hx].
  - rewrite <- IH. rewrite insert_by_filter by (intros; congruence).
    cbn [filter]. rewrite Hx. reflexivity.
Qed.
End SortBy.

(** The first [n] of a descending sort dominate the rest. *)
Lemma firstn_skipn_sorted {A : Type} (R : A -> A -> Prop) (n : nat) (l : list A) :
  StronglySorted R l ->
  forall a b, In a (firstn n l) -> In b (skipn n l) -> R a b.
Proof.
  intros Hs. revert n. induction Hs as [|x l Hs IH Hall]; intros n a b Ha Hb.
  - rewrite firstn_nil in Ha. destruct Ha.
  - destruct n as [|n]; [destruct Ha|].
    cbn [firstn skipn] in *. destruct Ha as [<-|Ha].
    + rewrite Forall_forall in Hall. apply Hall.
      rewrite <- (firstn_skipn n l). apply in_or_app. right. exact Hb.
    + exact (IH n a b Ha Hb).
Qed.

(** ** Distinct values *)

Lemma filter_comm {A : Type} (p q : A -> bool) (l : list A) :
  filter p (filter q l) = filter q (filter p l).
Proof.
  induction l as [|x l IH]; [reflexivity|].
  cbn [filter]. destruct (p x) eqn:Hp, (q x) eqn:Hq; cbn [filter];
    rewrite ?Hp, ?Hq, IH; reflexivity.
Qed.

Section Unique.
Context {A : Type} (eqb : A -> A -> bool).
Hypothesis eqb_eq : forall x y, eqb x y = true <-> x = y.

Lemma unique_In (x : A) (l : list A) : In x (unique eqb l) <-> In x l.
Proof.
  induction l as [|y l IH]; [reflexivity|].
  cbn [unique In]. rewrite filter_In, IH.
  split.
  - intros [H|[H _]]; [left|right]; assumption.
  - intros [H|H]; [left; assumption|].
    destruct (eqb y x) eqn:E.
    + left. apply eqb_eq. exact E.
    + right. split; [assumption|reflexivity].
Qed.

Lemma unique_NoDup (l : list A) : NoDup (unique eqb l).
Proof.
  induction l as [|y l IH]; cbn [unique]; constructor.
  - rewrite filter_In. intros [_ H].
    assert (E : eqb y y = true) by (apply eqb_eq; reflexivity).
    rewrite E in H. discriminate.
  - apply NoDup_filter, IH.
Qed.

Lemma unique_filter (p : A -> bool) (l : list A) :
  unique eqb (filter p l) = filter p (unique eqb l).
Proof.
  induction l as [|y l IH]; [reflexivity|].
  cbn [unique filter]. destruct (p y) eqn:Hy; cbn [unique].
  - f_equal. rewrite IH. apply filter_comm.
  - rewrite IH. clear IH. induction (unique eqb l) as [|z u IHu]; [reflexivity|].
    cbn [filter]. destruct (eqb y z) eqn:Hyz; cbn [negb filter].
    + apply eqb_eq in Hyz. subst z. rewrite Hy. exact IHu.
    + destruct (p z); rewrite IHu; reflexivity.
Qed.

End Unique.

(** ** Counting *)

Lemma Zsum_perm (l1 l2 : list Z) : Permutation l1 l2 -> Zsum l1 = Zsum l2.
Proof. unfold Zsum. induction 1; simpl; lia. Qed.

Lemma count_if_cons {A : Type} (p : A -> bool) (x : A) (l : list A) :
  count_if p (x :: l) = (if p x then 1 else 0) + count_if p l.
Proof.
  unfold count_if. cbn [filter]. destruct (p x); cbn [length]; lia.
Qed.

Lemma count_if_app {A : Type} (p : A -> bool) (l1 l2 : list A) :
  count_if p (l1 ++ l2) = count_if p l1 + count_if p l2.
Proof. unfold count_if. rewrite filter_app, length_app. lia. Qed.

Lemma count_if_bounds {A : Type} (p : A -> bool) (l : list A) :
  0 <= count_if p l <= Z.of_nat (length l).
Proof.
  unfold count_if. pose proof (filter_length_le p l). lia.
Qed.

Section CountClasses.
Context {A : Type} (eqb : A -> A -> bool).
Hypothesis eqb_eq : forall x y, eqb x y = true <-> x = y.

Lemma eqb_refl' (x : A) : eqb x x = true.
Proof. apply eqb_eq. reflexivity. Qed.

Lemma count_if_eqb_count_occ (dec : forall x y : A, {x = y} + {x <> y})
      (x : A) (l : list A) :
  count_if (eqb x) l = Z.of_nat (count_occ dec l x).
Proof.
  induction l as [|y l IH]; [reflexivity|].
  rewrite count_if_cons, IH. cbn [count_occ].
  destruct (dec y x) as [->|Hne].
  - rewrite eqb_refl'. lia.
  - destruct (eqb x y) eqn:E; [|lia].
    apply eqb_eq in E. congruence.
Qed.

(** One hit per position: over a duplicate-free list of classes that
    covers [l], the class sizes add up to the length of [l]. *)
Lemma Zsum_indicator (x : A) (ks : list A) :
  NoDup ks -> In x ks ->
  Zsum (map (fun k => if eqb k x then 1 else 0) ks) = 1.
Proof.
  induction 1 as [|k ks Hk Hnd IH]; intros Hin; [destruct Hin|].
  cbn [map Zsum fold_right]. fold (Zsum (map (fun k => if eqb k x then 1 else 0) ks)).
  destruct Hin as [->|Hin].
  - rewrite eqb_refl'.
    assert (H0 : Zsum (map (fun k => if eqb k x then 1 else 0) ks) = 0).
    { clear IH Hnd. induction ks as [|k ks IHk]; [reflexivity|].
      cbn [map Zsum fold_right].
      fold (Zsum (map (fun k => if eqb k x then 1 else 0) ks)).
      destruct (eqb k x) eqn:E.
      - apply eqb_eq in E. subst k. exfalso. apply Hk. left. reflexivity.
      - rewrite IHk; [reflexivity|]. intros H. apply Hk. right. exact H. }
    lia.
  - destruct (eqb k x) eqn:E.
    + apply eqb_eq in E. subst k. contradiction.
    + rewrite IH by assumption. reflexivity.
Qed.

Lemma Zsum_map_add {B : Type} (f g : B -> Z) (l : list B) :
  Zsum (map (fun k => f k + g k) l) = Zsum (map f l) + Zsum (map g l).
Proof. unfold Zsum. induction l as [|k l IH]; simpl; lia. Qed.

Lemma Zsum_class_sizes (ks l : list A) :
  NoDup ks -> incl l ks ->
  Zsum (map (fun k => count_if (eqb k) l) ks) = Z.of_nat (length l).
Proof.
  intros Hnd. induction l as [|x l IH]; intros Hincl.
  - clear. unfold count_if, Zsum. induction ks as [|k ks IHk]; [reflexivity|].
    simpl in *. exact IHk.
  - rewrite (map_ext _ (fun k => (if eqb k x then 1 else 0) + count_if (eqb k) l))
      by (intros; apply count_if_cons).
    rewrite Zsum_map_add, Zsum_indicator, IH.
    + cbn [length]. lia.
    + intros y Hy. apply Hincl. right. exact Hy.
    + exact Hnd.
    + apply Hincl. left. reflexivity.
Qed.

Lemma unique_snoc (x : A) (l : list A) :
  unique eqb (l ++ [x]) =
    if existsb (eqb x) l then unique eqb l else unique eqb l ++ [x].
Proof.
  induction l as [|y l IH]; [reflexivity|].
  cbn [app unique existsb]. rewrite IH.
  destruct (eqb x y) eqn:Exy; cbn [orb].
  - apply eqb_eq in Exy. subst y.
    destruct (existsb (eqb x) l); [reflexivity|].
    rewrite filter_app. cbn [filter]. rewrite eqb_refl'. cbn [negb].
    rewrite app_nil_r. reflexivity.
  - destruct (existsb (eqb x) l); [reflexivity|].
    rewrite filter_app. cbn [filter].
    destruct (eqb y x) eqn:Eyx.
    + apply eqb_eq in Eyx. subst y. rewrite eqb_refl' in Exy. discriminate.
    + reflexivity.
Qed.

Lemma existsb_eqb_In (x : A) (l : list A) : existsb (eqb x) l = true <-> In x l.
Proof.
  rewrite existsb_exists. split.
  - intros [y [Hy E]]. apply eqb_eq in E. subst y. exact Hy.
  - intros H. exists x. split; [exact H|apply eqb_refl'].
Qed.

Lemma existsb_unique (x : A) (l : list A) :
  existsb (eqb x) (unique eqb l) = existsb (eqb x) l.
Proof.
  apply eq_true_iff_eq. rewrite !existsb_eqb_In. apply unique_In. exact eqb_eq.
Qed.
End CountClasses.

(** ** Grouping *)

Lemma Zleb_total (a b : Z) : (a <=? b) = true \/ (b <=? a) = true.
Proof. destruct (Z.leb_spec a b); [left; reflexivity|right; apply Z.leb_le; lia]. Qed.

Lemma Zleb_trans (a b c : Z) :
  (a <=? b) = true -> (b <=? c) = true -> (a <=? c) = true.
Proof. rewrite !Z.leb_le. lia. Qed.

Section GroupBy.
Context {R : Type} (key : R -> Z).

Lemma groupby_index (df : list R) :
  index (groupby key df) = sort_by Z.leb (unique Z.eqb (map key df)).
Proof.
  unfold index, groupby. rewrite map_map. cbn [fst]. apply map_id.
Qed.

Lemma groupby_index_In (df : list R) (k : Z) :
  In k (index (groupby key df)) <-> In k (map key df).
Proof.
  rewrite groupby_index, sort_by_In. apply unique_In, Z.eqb_eq.
Qed.

Lemma groupby_index_NoDup (df : list R) : NoDup (index (groupby key df)).
Proof.
  rewrite groupby_index.
  apply (Permutation_NoDup (l := unique Z.eqb (map key df))).
  - symmetry. apply sort_by_perm.
  - apply unique_NoDup, Z.eqb_eq.
Qed.

Lemma groupby_In (df : list R) (k : Z) (g : list R) :
  In (k, g) (groupby key df) <->
  In k (map key df) /\ g = filter (fun r => key r =? k) df.
Proof.
  unfold groupby. rewrite in_map_iff. split.
  - intros [k' [E Hk]]. inversion E; subst.
    rewrite sort_by_In, unique_In in Hk by apply Z.eqb_eq. auto.
  - intros [Hk ->]. exists k. split; [reflexivity|].
    rewrite sort_by_In, unique_In by apply Z.eqb_eq. exact Hk.
Qed.

Lemma group_nonempty (df : list R) (k : Z) :
  In k (map key df) -> filter (fun r => key r =? k) df <> [].
Proof.
  rewrite in_map_iff. intros [r [E Hr]] Hnil.
  assert (H : In r (filter (fun r => key r =? k) df)).
  { apply filter_In. split; [exact Hr|]. apply Z.eqb_eq. exact E. }
  rewrite Hnil in H. destruct H.
Qed.
End GroupBy.

Lemma rating_stats_index (key : Ratings.row -> Z) (df : list Ratings.row) :
  index (rating_stats key df) = index (groupby key df).
Proof. unfold index, rating_stats. rewrite map_map. reflexivity. Qed.

Lemma rating_stats_In (key : Ratings.row -> Z) (df : list Ratings.row)
      (k : Z) (s : Stats.row) :
  In (k, s) (rating_stats key df) <->
  In k (map key df) /\
  s = round_stats 2 (agg_count_mean_std
                       (map Ratings.rating (filter (fun r => key r =? k) df))).
Proof.
  unfold rating_stats. rewrite in_map_iff. split.
  - intros [[k' g] [E Hg]]. cbn [fst snd] in E. inversion E; subst.
    apply groupby_In in Hg. destruct Hg as [Hk ->]. auto.
  - intros [Hk ->]. exists (k, filter (fun r => key r =? k) df).
    split; [reflexivity|]. apply groupby_In. auto.
Qed.

(** ** Tallies *)

Lemma Counter_snoc (l : list string) (x : string) :
  Counter (l ++ [x]) = counter_incr x (Counter l).
Proof. unfold Counter. rewrite fold_left_app. reflexivity. Qed.

Lemma counter_incr_keys (x : string) (c : list (string * Z)) :
  map fst (counter_incr x c) =
    if existsb (String.eqb x) (map fst c) then map fst c else map fst c ++ [x].
Proof.
  induction c as [|[y n] c IH]; [reflexivity|].
  cbn [counter_incr map fst existsb].
  destruct (String.eqb x y); cbn [orb map fst]; [reflexivity|].
  rewrite IH. destruct (existsb (String.eqb x) (map fst c)); reflexivity.
Qed.

Lemma Counter_keys (l : list string) : map fst (Counter l) = unique String.eqb l.
Proof.
  induction l as [|x l IH] using rev_ind; [reflexivity|].
  rewrite Counter_snoc, counter_incr_keys, IH.
  rewrite (unique_snoc _ String.eqb_eq), (existsb_unique _ String.eqb_eq).
  reflexivity.
Qed.

Lemma counter_get_incr (x : string) (c : list (string * Z)) (y : string) :
  counter_get (counter_incr x c) y =
    counter_get c y + (if String.eqb y x then 1 else 0).
Proof.
  induction c as [|[z n] c IH]; cbn [counter_incr counter_get].
  - destruct (String.eqb y x); reflexivity.
  - destruct (String.eqb_spec x z) as [->|Hxz]; cbn [counter_get].
    + destruct (String.eqb y z); lia.
    + rewrite IH. destruct (String.eqb_spec y z) as [->|Hyz]; [|reflexivity].
      destruct (String.eqb_spec z x); [congruence|lia].
Qed.

Lemma Counter_get (l : list string) (y : string) :
  counter_get (Counter l) y = count_if (String.eqb y) l.
Proof.
  induction l as [|x l IH] using rev_ind; [reflexivity|].
  rewrite Counter_snoc, counter_get_incr, IH, count_if_app.
  rewrite count_if_cons. unfold count_if at 3. cbn. lia.
Qed.

Lemma counter_get_In (c : list (string * Z)) (x : string) (n : Z) :
  NoDup (map fst c) -> In (x, n) c -> counter_get c x = n.
Proof.
  induction c as [|[y k] c IH]; intros Hnd Hin; [destruct Hin|].
  cbn [map fst] in Hnd. inversion Hnd as [|? ? Hy Hnd']; subst.
  cbn [counter_get]. destruct Hin as [E|Hin].
  - inversion E; subst. rewrite String.eqb_refl. reflexivity.
  - destruct (String.eqb_spec x y) as [->|_]; [|apply IH; assumption].
    exfalso. apply Hy. apply (in_map fst) in Hin. exact Hin.
Qed.

Lemma Counter_NoDup (l : list string) : NoDup (map fst (Counter l)).
Proof. rewrite Counter_keys. apply unique_NoDup, String.eqb_eq. Qed.

Lemma Counter_In (l : list string) (x : string) (n : Z) :
  In (x, n) (Counter l) <-> In x l /\ n = count_if (String.eqb x) l.
Proof.
  split.
  - intros Hin. split.
    + apply (in_map fst) in Hin. rewrite Counter_keys in Hin.
      apply (proj1 (unique_In _ String.eqb_eq _ _)) in Hin. exact Hin.
    + rewrite <- Counter_get. symmetry.
      apply counter_get_In; [apply Counter_NoDup|exact Hin].
  - intros [Hin ->].
    apply (proj2 (unique_In _ String.eqb_eq _ _)) in Hin.
    rewrite <- Counter_keys in Hin.
    apply in_map_iff in Hin. destruct Hin as [[y k] [E Hin]]. cbn in E. subst y.
    rewrite <- Counter_get.
    rewrite (counter_get_In _ _ _ (Counter_NoDup l) Hin). exact Hin.
Qed.

Lemma Counter_map (l : list string) :
  Counter l = map (fun x => (x, count_if (String.eqb x) l)) (unique String.eqb l).
Proof.
  pose proof (Counter_keys l) as Hk.
  assert (Hv : forall e, In e (Counter l) ->
                         e = (fst e, count_if (String.eqb (fst e)) l)).
  { intros [x n] He. apply Counter_In in He. cbn [fst]. f_equal. apply He. }
  revert Hk Hv. generalize (unique String.eqb l). generalize (Counter l).
  induction l0 as [|e c IH]; intros [|k ks] Hk Hv; try discriminate; [reflexivity|].
  cbn [map fst] in *. inversion Hk; subst. f_equal.
  - apply Hv. left. reflexivity.
  - apply IH; [reflexivity|]. intros e' He'. apply Hv. right. exact He'.
Qed.

Lemma all_genres_concat (gl : list (list string)) : all_genres gl = concat gl.
Proof.
  unfold all_genres.
  assert (H : forall acc, fold_left (fun a g => a ++ g) gl acc = acc ++ concat gl).
  { induction gl as [|g gl IH]; intros acc; cbn [fold_left concat].
    - rewrite app_nil_r. reflexivity.
    - rewrite IH, app_assoc. reflexivity. }
  apply H.
Qed.

(** ** Rating values *)

Lemma Qc_eq_bool_eq (x y : Qc) : Qc_eq_bool x y = true <-> x = y.
Proof.
  split; [apply Qc_eq_bool_correct|].
  intros ->. unfold Qc_eq_bool. destruct (Qc_eq_dec y y); congruence.
Qed.

Lemma Qc_leb_le (x y : Qc) : Qc_leb x y = true <-> (x <= y)%Qc.
Proof. unfold Qc_leb, Qcle. apply Qle_bool_iff. Qed.

Lemma Qc_leb_total (x y : Qc) : Qc_leb x y = true \/ Qc_leb y x = true.
Proof.
  rewrite !Qc_leb_le. destruct (Qclt_le_dec x y) as [H|H];
    [left; apply Qclt_le_weak|right]; exact H.
Qed.

Lemma Qc_leb_trans (x y z : Qc) :
  Qc_leb x y = true -> Qc_leb y z = true -> Qc_leb x z = true.
Proof. rewrite !Qc_leb_le. apply Qcle_trans. Qed.

Lemma StronglySorted_map {A B : Type} (f : A -> B) (R : B -> B -> Prop) (l : list A) :
  StronglySorted (fun a b => R (f a) (f b)) l -> StronglySorted R (map f l).
Proof.
  induction 1 as [|x l Hs IH Hall]; cbn [map]; constructor; [exact IH|].
  rewrite Forall_forall in *. intros y Hy. apply in_map_iff in Hy.
  destruct Hy as [a [<- Ha]]. apply Hall. exact Ha.
Qed.

Lemma StronglySorted_strict (l : list Qc) :
  StronglySorted Qcle l -> NoDup l -> StronglySorted Qclt l.
Proof.
  induction 1 as [|x l Hs IH Hall]; intros Hnd; constructor;
    inversion Hnd as [|? ? Hx Hnd']; subst; [apply IH; exact Hnd'|].
  rewrite Forall_forall in *. intros y Hy.
  destruct (Qcle_lt_or_eq _ _ (Hall y Hy)) as [Hlt|Heq]; [exact Hlt|].
  subst y. contradiction.
Qed.

Lemma value_counts_perm (xs : list Qc) :
  Permutation (sort_index (value_counts xs))
              (map (fun v => (v, count_if (Qc_eq_bool v) xs)) (unique Qc_eq_bool xs)).
Proof.
  unfold sort_index, value_counts. rewrite !sort_by_perm. reflexivity.
Qed.

Lemma rating_counts_In (df : list Ratings.row) (v : Qc) (n : Z) :
  In (v, n) (rating_counts df) <->
  In v (map Ratings.rating df) /\
  n = count_if (Qc_eq_bool v) (map Ratings.rating df).
Proof.
  unfold rating_counts. set (xs := map Ratings.rating df).
  split.
  - intros H. apply (Permutation_in _ (value_counts_perm xs)) in H.
    apply in_map_iff in H. destruct H as [v' [E Hv]]. inversion E; subst.
    apply (proj1 (unique_In _ Qc_eq_bool_eq _ _)) in Hv. auto.
  - intros [Hv ->].
    apply (Permutation_in _ (Permutation_sym (value_counts_perm xs))).
    apply in_map_iff. exists v. split; [reflexivity|].
    apply (unique_In _ Qc_eq_bool_eq). exact Hv.
Qed.

Lemma rating_counts_index_perm (df : list Ratings.row) :
  Permutation (index (rating_counts df))
              (unique Qc_eq_bool (map Ratings.rating df)).
Proof.
  unfold index, rating_counts.
  rewrite (Permutation_map fst (value_counts_perm _)), map_map. cbn [fst].
  rewrite map_id. reflexivity.
Qed.

Lemma rating_counts_sorted (df : list Ratings.row) :
  StronglySorted Qclt (index (rating_counts df)).
Proof.
  apply StronglySorted_strict.
  - unfold index. apply StronglySorted_map.
    pose proof (sort_by_sorted (fun a b : Qc * Z => Qc_leb (fst a) (fst b))
                  (fun a b => Qc_leb_total (fst a) (fst b))
                  (fun a b c => Qc_leb_trans (fst a) (fst b) (fst c))
                  (value_counts (map Ratings.rating df))) as H.
    eapply StronglySorted_ind with (P := StronglySorted _) in H.
    + exact H.
    + constructor.
    + intros a l _ IH Hall. constructor; [exact IH|].
      eapply Forall_impl; [|exact Hall]. intros b. apply Qc_leb_le.
  - eapply Permutation_NoDup.
    + symmetry. apply rating_counts_index_perm.
    + apply unique_NoDup, Qc_eq_bool_eq.
Qed.

Lemma rating_counts_total (df : list Ratings.row) :
  Zsum (values (rating_counts df)) = Z.of_nat (length df).
Proof.
  unfold values, rating_counts.
  rewrite (Zsum_perm _ _ (Permutation_map snd (value_counts_perm _))).
  rewrite map_map. cbn [snd].
  rewrite (Zsum_class_sizes _ Qc_eq_bool_eq).
  - rewrite length_map. reflexivity.
  - apply unique_NoDup, Qc_eq_bool_eq.
  - intros x Hx. apply (unique_In _ Qc_eq_bool_eq). exact Hx.
Qed.

(** ** The join with the titles *)

Lemma merge_In (left : Series Z Stats.row) (right : list (Z * string))
      (p : Popularity.row) :
  In p (merge left right) <->
  In (Popularity.movieId p, Popularity.stats p) left /\
  In (Popularity.movieId p, Popularity.title p) right.
Proof.
  unfold merge. rewrite in_flat_map. split.
  - intros [[k s] [Hl Hp]]. apply in_map_iff in Hp.
    destruct Hp as [[k' t] [<- Hr]]. apply filter_In in Hr.
    cbn [fst snd Popularity.movieId Popularity.stats Popularity.title] in *.
    destruct Hr as [Hr E]. apply Z.eqb_eq in E. subst k'. auto.
  - intros [Hl Hr]. exists (Popularity.movieId p, Popularity.stats p).
    split; [exact Hl|]. apply in_map_iff.
    exists (Popularity.movieId p, Popularity.title p). split.
    + destruct p; reflexivity.
    + apply filter_In. split; [exact Hr|]. apply Z.eqb_refl.
Qed.

Lemma merge_drop_unmatched (p : Z -> bool) (left : Series Z Stats.row)
      (right : list (Z * string)) :
  (forall k, p k = false -> ~ In k (map fst right)) ->
  merge (filter (fun kv => p (fst kv)) left) right = merge left right.
Proof.
  intros Hp. unfold merge. induction left as [|[k s] left IH]; [reflexivity|].
  cbn [filter flat_map fst]. destruct (p k) eqn:Hk.
  - cbn [flat_map]. rewrite IH. reflexivity.
  - rewrite IH. cbn [fst snd].
    assert (Hnil : filter (fun r : Z * string => fst r =? k) right = []).
    { specialize (Hp k Hk). clear - Hp.
      induction right as [|[k' t] right IHr]; [reflexivity|].
      cbn [filter fst]. destruct (Z.eqb_spec k' k) as [->|_].
      - exfalso. apply Hp. left. reflexivity.
      - apply IHr. intros H. apply Hp. right. exact H. }
    rewrite Hnil. reflexivity.
Qed.

Lemma filter_all {A : Type} (p : A -> bool) (l : list A) :
  (forall x, In x l -> p x = true) -> filter p l = l.
Proof.
  induction l as [|x l IH]; intros H; [reflexivity|].
  cbn [filter]. rewrite (H x (or_introl eq_refl)), IH; [reflexivity|].
  intros y Hy. apply H. right. exact Hy.
Qed.

Lemma map_filter_key {R : Type} (key : R -> Z) (p : Z -> bool) (df : list R) :
  map key (filter (fun r => p (key r)) df) = filter p (map key df).
Proof.
  induction df as [|r df IH]; [reflexivity|].
  cbn [filter map]. destruct (p (key r)); cbn [map]; rewrite IH; reflexivity.
Qed.

Lemma groupby_filter {R : Type} (key : R -> Z) (p : Z -> bool) (df : list R) :
  groupby key (filter (fun r => p (key r)) df) =
  filter (fun kg => p (fst kg)) (groupby key df).
Proof.
  unfold groupby.
  rewrite map_filter_key, (unique_filter _ Z.eqb_eq).
  rewrite <- (filter_sort_by _ Zleb_total Zleb_trans).
  induction (sort_by Z.leb (unique Z.eqb (map key df))) as [|k ks IH];
    [reflexivity|].
  cbn [filter map fst]. destruct (p k) eqn:Hk; [|exact IH].
  cbn [map]. rewrite IH. f_equal. f_equal.
  rewrite filter_comm. apply filter_all.
  intros r Hr. apply filter_In in Hr. destruct Hr as [_ E].
  apply Z.eqb_eq in E. subst k. exact Hk.
Qed.

Lemma rating_stats_filter (key : Ratings.row -> Z) (p : Z -> bool)
      (df : list Ratings.row) :
  rating_stats key (filter (fun r => p (key r)) df) =
  filter (fun kv => p (fst kv)) (rating_stats key df).
Proof.
  unfold rating_stats. rewrite groupby_filter.
  induction (groupby key df) as [|[k g] gs IH]; [reflexivity|].
  cbn [filter map fst snd]. destruct (p k); cbn [map fst snd]; rewrite IH; reflexivity.
Qed.

(** ** Frame reasoning for statements *)

Section Keeps.
Variable R : world -> world -> Prop.
Hypothesis R_refl : forall w, R w w.
Hypothesis R_trans : forall a b c, R a b -> R b c -> R a c.

Lemma keeps_ret {A : Type} (a : A) : keeps R (ret a).
Proof. intros w. apply R_refl. Qed.

Lemma keeps_raise {A : Type} (e : exn) : keeps R (@raise A e).
Proof. intros w. apply R_refl. Qed.

Lemma keeps_get : keeps R get.
Proof. intros w. apply R_refl. Qed.

Lemma keeps_truediv (a b : Z) : keeps R (truediv a b).
Proof. unfold truediv. destruct (b =? 0); [apply keeps_raise|apply keeps_ret]. Qed.

Lemma keeps_assign (f : world -> world) :
  (forall w, R w (f w)) -> keeps R (assign f).
Proof. intros H w. apply H. Qed.

Lemma keeps_bind {A B : Type} (c : M A) (k : A -> M B) :
  keeps R c -> (forall a, keeps R (k a)) -> keeps R (bind c k).
Proof.
  intros Hc Hk w. unfold bind. specialize (Hc w).
  destruct (c w) as [w' [a|e]]; cbn [fst] in *.
  - eapply R_trans; [exact Hc|apply Hk].
  - exact Hc.
Qed.

Lemma keeps_percent_of (a b : Z) : keeps R (percent_of a b).
Proof.
  unfold percent_of. apply keeps_bind; [apply keeps_truediv|].
  intros q. apply keeps_ret.
Qed.
End Keeps.

Ltac keeps_step Hrefl Htrans Hset :=
  first
    [ apply (keeps_bind _ Htrans); [|intros ?]
    | apply (keeps_ret _ Hrefl)
    | apply (keeps_raise _ Hrefl)
    | apply (keeps_get _ Hrefl)
    | apply (keeps_truediv _ Hrefl)
    | apply (keeps_percent_of _ Hrefl Htrans)
    | apply keeps_assign; Hset ].

Lemma same_tables_refl (w : world) : same_tables w w.
Proof. split; reflexivity. Qed.

Lemma same_tables_trans (a b c : world) :
  same_tables a b -> same_tables b c -> same_tables a c.
Proof. intros [H1 H2] [H3 H4]. split; congruence. Qed.

Lemma same_rows_refl (w : world) : same_rows w w.
Proof. split; reflexivity. Qed.

Lemma same_rows_trans (a b c : world) :
  same_rows a b -> same_rows b c -> same_rows a c.
Proof. intros [H1 H2] [H3 H4]. split; congruence. Qed.

Lemma same_tables_rows (w w' : world) : same_tables w w' -> same_rows w w'.
Proof. intros [H1 H2]. split; [exact H1|rewrite H2; reflexivity]. Qed.

Ltac tables_kept :=
  unfold print, emit;
  repeat keeps_step same_tables_refl same_tables_trans
         ltac:(intros ?; split; reflexivity).

Lemma summary_statistics_tables : keeps same_tables summary_statistics.
Proof. unfold summary_statistics. tables_kept. Qed.

Lemma distribution_analyzer_tables : keeps same_tables distribution_analyzer.
Proof. unfold distribution_analyzer. tables_kept. Qed.

Lemma popularity_analyzer_tables : keeps same_tables popularity_analyzer.
Proof. unfold popularity_analyzer. tables_kept. Qed.

Lemma user_behavior_analyzer_tables : keeps same_tables user_behavior_analyzer.
Proof. unfold user_behavior_analyzer. tables_kept. Qed.

Lemma bias_insight_reporter_tables : keeps same_tables bias_insight_reporter.
Proof. unfold bias_insight_reporter. tables_kept. Qed.

Lemma summary_tables : keeps same_tables summary.
Proof. unfold summary. tables_kept. Qed.

Lemma genre_analyzer_rows : keeps same_rows genre_analyzer.
Proof.
  unfold genre_analyzer, print, emit.
  repeat keeps_step same_rows_refl same_rows_trans
         ltac:(intros ?; split; reflexivity).
Qed.

Lemma genre_analyzer_column (w : world) :
  Movies.genres_list (movies_df (fst (genre_analyzer w)))
  = Some (split_genres (movies_df w)).
Proof. reflexivity. Qed.

(** ** Runs *)

Lemma nunique_pos (ks : list Z) : ks <> [] -> 0 < nunique ks.
Proof. destruct ks as [|k ks]; [congruence|]. intros _. unfold nunique. cbn. lia. Qed.

(** [nunique] counts the distinct values: it is the length of any
    duplicate-free enumeration of them. *)
Lemma nunique_spec (ks us : list Z) :
  NoDup us -> (forall u, In u us <-> In u ks) ->
  nunique ks = Z.of_nat (length us).
Proof.
  intros Hnd Hin. unfold nunique. f_equal.
  apply Permutation_length, NoDup_Permutation.
  - apply unique_NoDup, Z.eqb_eq.
  - exact Hnd.
  - intros u. rewrite (unique_In _ Z.eqb_eq). symmetry. apply Hin.
Qed.

Lemma truediv_nonzero (a b : Z) (w : world) :
  b <> 0 -> truediv a b w = (w, Ok (Z2Qc a / Z2Qc b)%Qc).
Proof.
  intros H. unfold truediv. destruct (Z.eqb_spec b 0); [contradiction|reflexivity].
Qed.

Ltac run_script :=
  cbv [run main stages fold_right seq loader try_except_FileNotFoundError
       bind read_csv ret raise assign print emit get summary_statistics
       distribution_analyzer popularity_analyzer user_behavior_analyzer
       genre_analyzer bias_insight_reporter summary percent_of].

Ltac run_state :=
  cbv [set_ratings_df set_movies_df set_counts set_movie_popularity set_user_stats set_genres_list
       add_event ratings_df movies_df n_users n_movies_rated n_ratings
       n_movies_total movie_popularity user_stats out start Movies.rows app].

Lemma run_missing (fs : filesystem) :
  ratings_csv fs = None \/ movies_csv fs = None ->
  snd (run fs) = Raise SystemExit /\
  out (fst (run fs)) = [Print "ERROR: Dataset files not found."].
Proof.
  intros [H|H]; unfold run, main; cbn [fold_right]; unfold seq, loader.
  - rewrite H. split; reflexivity.
  - rewrite H. destruct (ratings_csv fs); split; reflexivity.
Qed.

Lemma run_empty (fs : filesystem) (m : list Movies.row) :
  ratings_csv fs = Some [] -> movies_csv fs = Some m ->
  snd (run fs) = Raise ZeroDivisionError /\
  out (fst (run fs)) =
    [ Print "Successfully loaded MovieLens dataset";
      Print (nl ++ "=== DATASET OVERVIEW ===");
      Print "Users: 0";
      Print ("Movies (total): " ++ fmt_int (nunique (map Movies.movieId m)));
      Print "Movies (rated): 0";
      Print "Total ratings: 0" ].
Proof.
  intros Hr Hm. run_script. rewrite Hr, Hm. run_state.
  split; reflexivity.
Qed.

Lemma run_complete (fs : filesystem) (r : list Ratings.row) (m : list Movies.row) :
  ratings_csv fs = Some r -> movies_csv fs = Some m -> r <> [] ->
  let mf := Movies.mk_frame m None in
  let U := nunique (map Ratings.userId r) in
  let Mr := nunique (map Ratings.movieId r) in
  let N := Z.of_nat (length r) in
  let Mt := nunique (map Movies.movieId m) in
  let us := rating_stats Ratings.userId r in
  let mp := merged_popularity r mf in
  let rc := rating_counts r in
  let tg := top_genres (split_genres mf) in
  let sparsity := (1 - Z2Qc N / Z2Qc (U * Mr))%Qc in
  run fs =
  (mk_world r (Movies.mk_frame m (Some (split_genres mf))) U Mr N Mt mp us
     [ Print "Successfully loaded MovieLens dataset";
       Print (nl ++ "=== DATASET OVERVIEW ===");
       Print ("Users: " ++ fmt_int U);
       Print ("Movies (total): " ++ fmt_int Mt);
       Print ("Movies (rated): " ++ fmt_int Mr);
       Print ("Total ratings: " ++ fmt_int N);
       Print ("Sparsity: " ++ fmt_f 4 sparsity);
       Print ("Avg ratings per user: " ++ fmt_f 1 (Z2Qc N / Z2Qc U));
       Print ("Avg ratings per movie: " ++ fmt_f 1 (Z2Qc N / Z2Qc Mr));
       Bar (map Num (index rc)) (values rc);
       Hist (map of_int (values (user_activity r))) 30;
       Savefig "basic_distributions.png";
       Scatter (map (fun p => of_int (Popularity.num_ratings p)) mp)
               (map Popularity.avg_rating mp);
       Savefig "popularity_vs_rating.png";
       Hist (values (column Stats.avg_rating us)) 20;
       Hist (values (dropna (column Stats.rating_std us))) 20;
       Scatter (map of_int (values (column Stats.num_ratings us)))
               (values (column Stats.avg_rating us));
       Savefig "user_behavior_analysis.png";
       Bar (map Str (map fst tg)) (map snd tg);
       Savefig "genre_distribution.png";
       Print (nl ++ "=== FILTERING INSIGHTS ===");
       Print ("Matrix dimensions: " ++ fmt_int U ++ " users × "
              ++ fmt_int Mr ++ " movies");
       Print ("Matrix sparsity: " ++ fmt_f 2 (sparsity * Z2Qc 100) ++ "%");
       Print ("Power users (top 20): "
              ++ fmt_int (Z.of_nat (length (power_users us)))
              ++ " users account for "
              ++ fmt_f 1 (Z2Qc (rows_isin Ratings.userId (power_users us) r)
                          / Z2Qc N * Z2Qc 100)
              ++ "% of ratings");
       Print ("Popular movies (top 50): "
              ++ fmt_int (Z.of_nat (length (popular_movies_ids mp)))
              ++ " movies account for "
              ++ fmt_f 1 (Z2Qc (rows_isin Ratings.movieId (popular_movies_ids mp) r)
                          / Z2Qc N * Z2Qc 100)
              ++ "% of ratings");
       Print (nl ++ "=== SUMMARY ===");
       Print "Generated visualizations:";
       Print "- basic_distributions.png: Rating patterns & user activity";
       Print "- popularity_vs_rating.png: Movie popularity bias analysis";
       Print "- user_behavior_analysis.png: User rating behavior & biases";
       Print "- genre_distribution.png: Content distribution" ],
   Ok tt).
Proof.
  intros Hr Hm Hne. cbv zeta.
  assert (HU : nunique (map Ratings.userId r) <> 0).
  { pose proof (nunique_pos (map Ratings.userId r)) as H.
    destruct r; [congruence|]. cbn [map] in *. specialize (H ltac:(discriminate)). lia. }
  assert (HM : nunique (map Ratings.movieId r) <> 0).
  { pose proof (nunique_pos (map Ratings.movieId r)) as H.
    destruct r; [congruence|]. cbn [map] in *. specialize (H ltac:(discriminate)). lia. }
  assert (HN : Z.of_nat (length r) <> 0).
  { destruct r; [congruence|]. cbn [length]. lia. }
  assert (HUM : nunique (map Ratings.userId r) * nunique (map Ratings.movieId r) <> 0)
    by lia.
  run_script. rewrite Hr, Hm. run_state.
  repeat (rewrite truediv_nonzero by assumption; run_state).
  reflexivity.
Qed.

(** ** Splitting a category string *)

Lemma split_nonempty (sep : ascii) (s : string) : split sep s <> [].
Proof.
  destruct s as [|c s]; cbn [split]; [discriminate|].
  destruct (Ascii.eqb c sep); [discriminate|].
  destruct (split sep s); discriminate.
Qed.

(** Joining the pieces with the separator gives the string back. *)
Lemma concat_split (sep : ascii) (s : string) :
  String.concat (String sep EmptyString) (split sep s) = s.
Proof.
  induction s as [|c s IH]; [reflexivity|].
  cbn [split]. pose proof (split_nonempty sep s) as Hne.
  destruct (Ascii.eqb_spec c sep) as [->|Hc];
    destruct (split sep s) as [|w ws]; try congruence.
  - change (String sep (String.concat (String sep EmptyString) (w :: ws))
            = String sep s).
    f_equal. exact IH.
  - destruct ws as [|w' ws].
    + change (String c w = String c s). f_equal. exact IH.
    + change (String c (String.concat (String sep EmptyString) (w :: w' :: ws))
              = String c s).
      f_equal. exact IH.
Qed.

(** No piece contains the separator. *)
Lemma split_pieces (sep : ascii) (s piece : string) (n : nat) :
  In piece (split sep s) -> String.get n piece <> Some sep.
Proof.
  revert piece n. induction s as [|c s IH]; intros piece n Hin.
  - destruct Hin as [<-|[]]. destruct n; discriminate.
  - cbn [split] in Hin. destruct (Ascii.eqb_spec c sep) as [->|Hc].
    + destruct Hin as [<-|Hin]; [destruct n; discriminate|apply IH; exact Hin].
    + destruct (split sep s) as [|w ws] eqn:E.
      * destruct Hin as [<-|[]]. destruct n as [|[|n]]; cbn; congruence.
      * destruct Hin as [<-|Hin].
        -- destruct n as [|n]; cbn [String.get]; [congruence|].
           apply IH. left. reflexivity.
        -- apply IH. right. exact Hin.
Qed.

(** ** Selecting the largest *)

Lemma sort_desc_stable {A : Type} (col : A -> Z) (l : list A) :
  stable_desc col l (sort_by (fun a b => col b <=? col a) l).
Proof.
  split; [apply sort_by_perm|]. split.
  - pose proof (sort_by_sorted (fun a b => col b <=? col a)
                  (fun a b => Zleb_total (col b) (col a))
                  (fun a b c Hab Hbc => Zleb_trans _ _ _ Hbc Hab) l) as H.
    induction H as [|x s Hs IH Hall]; constructor; [exact IH|].
    eapply Forall_impl; [|exact Hall]. intros y. apply Z.leb_le.
  - intros c. apply sort_by_stable. intros x y Hx Hy.
    apply Z.eqb_eq in Hx, Hy. apply Z.leb_le. lia.
Qed.

Lemma firstn_dominates {A : Type} (col : A -> Z) (n : nat) (l s : list A)
      (a b : A) :
  stable_desc col l s -> In a (firstn n s) -> In b l -> ~ In b (firstn n s) ->
  col b <= col a.
Proof.
  intros [Hp [Hs _]] Ha Hb Hnb.
  apply (firstn_skipn_sorted _ n s Hs a b Ha).
  apply (Permutation_in _ (Permutation_sym Hp)) in Hb.
  rewrite <- (firstn_skipn n s) in Hb. apply in_app_or in Hb.
  destruct Hb as [Hb|Hb]; [contradiction|exact Hb].
Qed.

Lemma nlargest_In {A : Type} (n : nat) (col : A -> Z) (l : list A) (a : A) :
  In a (nlargest n col l) -> In a l.
Proof.
  unfold nlargest. intros H.
  apply (sort_by_In (fun a b => col b <=? col a)).
  rewrite <- (firstn_skipn n (sort_by _ l)). apply in_or_app. left. exact H.
Qed.

Lemma nlargest_dominates {A : Type} (n : nat) (col : A -> Z) (l : list A) (a b : A) :
  In a (nlargest n col l) -> In b l -> ~ In b (nlargest n col l) ->
  col b <= col a.
Proof.
  unfold nlargest. apply firstn_dominates, sort_desc_stable.
Qed.

Lemma count_occ_concat {A : Type} (dec : forall x y : A, {x = y} + {x <> y})
      (x : A) (ls : list (list A)) :
  count_occ dec (concat ls) x = list_sum (map (fun l => count_occ dec l x) ls).
Proof.
  induction ls as [|l ls IH]; [reflexivity|].
  cbn [concat map list_sum]. rewrite count_occ_app, IH. reflexivity.
Qed.

Lemma length_concat_Zsum {A : Type} (ls : list (list A)) :
  Z.of_nat (length (concat ls)) = Zsum (map (fun l => Z.of_nat (length l)) ls).
Proof.
  induction ls as [|l ls IH]; [reflexivity|].
  cbn [concat map]. rewrite length_app. unfold Zsum in *. cbn [fold_right]. lia.
Qed.

(** ** The claims *)

(** C2. When either input file is absent the run prints the fixed
    dataset-not-found line and exits: that line is the whole output, so the
    dataset overview is not printed and no figure is saved. *)
Theorem C2_missing_input_stops_the_run (fs : filesystem) :
  ratings_csv fs = None \/ movies_csv fs = None ->
  snd (run fs) = Raise SystemExit /\
  out (fst (run fs)) = [Print "ERROR: Dataset files not found."] /\
  ~ In (Print (nl ++ "=== DATASET OVERVIEW ===")) (out (fst (run fs))) /\
  (forall fname, ~ In (Savefig fname) (out (fst (run fs)))).
Proof.
  intros H. destruct (run_missing fs H) as [Hs Ho]. rewrite Ho.
  repeat split.
  - exact Hs.
  - intros [E|[]]. discriminate E.
  - intros fname [E|[]]. discriminate E.
Qed.

(** C2 on the worked example with ratings.csv missing. *)
Lemma C2_missing_input_stops_the_run_witness :
  (ratings_csv (mk_fs None (Some example_movies)) = None \/
   movies_csv (mk_fs None (Some example_movies)) = None) /\
  snd (run (mk_fs None (Some example_movies))) = Raise SystemExit /\
  out (fst (run (mk_fs None (Some example_movies))))
    = [Print "ERROR: Dataset files not found."].
Proof.
  split; [left; reflexivity|].
  pose proof (C2_missing_input_stops_the_run (mk_fs None (Some example_movies))
                (or_introl eq_refl)) as [H1 [H2 _]].
  split; [exact H1|exact H2].
Defined.

(** C3, as stated: every stage leaves both source tables as it found them.
    The genre analysis does not: it assigns a new column to the items
    frame. *)
Lemma C3_counterexample : ~ Forall (keeps same_tables) stages.
Proof.
  intros H. rewrite Forall_forall in H.
  assert (Hin : In genre_analyzer stages) by (unfold stages; cbn; tauto).
  destruct (H genre_analyzer Hin
              (set_movies_df example_movies (set_ratings_df example_ratings start)))
    as [_ Hm].
  discriminate Hm.
Qed.

(** C3, amended.  After loading, no stage changes the ratings table or the
    loaded rows of the items table; every stage but the genre analysis
    leaves the items frame untouched altogether, and the genre analysis adds
    to it the column [genres_list] holding each row's split category
    string. *)
Theorem C3_tables_after_loading :
  Forall (keeps same_rows) stages /\
  Forall (keeps same_tables)
         [ summary_statistics; distribution_analyzer; popularity_analyzer;
           user_behavior_analyzer; bias_insight_reporter; summary ] /\
  forall w,
    Movies.genres_list (movies_df (fst (genre_analyzer w)))
    = Some (split_genres (movies_df w)).
Proof.
  assert (Hw : forall c : M unit, keeps same_tables c -> keeps same_rows c).
  { intros c Hc w. apply same_tables_rows, Hc. }
  split; [|split].
  - unfold stages. repeat (apply Forall_cons || apply Forall_nil);
      first [ exact genre_analyzer_rows | apply Hw ];
      first [ exact summary_statistics_tables | exact distribution_analyzer_tables
            | exact popularity_analyzer_tables | exact user_behavior_analyzer_tables
            | exact bias_insight_reporter_tables | exact summary_tables ].
  - repeat (apply Forall_cons || apply Forall_nil);
      first [ exact summary_statistics_tables | exact distribution_analyzer_tables
            | exact popularity_analyzer_tables | exact user_behavior_analyzer_tables
            | exact bias_insight_reporter_tables | exact summary_tables ].
  - exact genre_analyzer_column.
Qed.

(** C6. The rating-value histogram, which the distribution analyzer draws
    as its bar chart, has one entry per distinct rating value present in the
    ratings table, carrying the number of records with that value; its
    values are in strictly ascending order; and its counts add up to the
    number of rows. *)
Theorem C6_rating_histogram (df : list Ratings.row) :
  let ratings := map Ratings.rating df in
  (forall v n,
      In (v, n) (rating_counts df) <->
      In v ratings /\ n = Z.of_nat (count_occ Qc_eq_dec ratings v)) /\
  StronglySorted Qclt (index (rating_counts df)) /\
  Zsum (values (rating_counts df)) = Z.of_nat (length df) /\
  (forall w,
      In (Bar (map Num (index (rating_counts (ratings_df w))))
              (values (rating_counts (ratings_df w))))
         (out (fst (distribution_analyzer w)))).
Proof.
  cbv zeta. split; [|split; [|split]].
  - intros v n. rewrite rating_counts_In.
    rewrite (count_if_eqb_count_occ _ Qc_eq_bool_eq Qc_eq_dec). reflexivity.
  - apply rating_counts_sorted.
  - apply rating_counts_total.
  - intros w. cbn [distribution_analyzer fst out].
    apply in_or_app. left. apply in_or_app. left. apply in_or_app. right.
    left. reflexivity.
Qed.

(** C7. Every item's category string is split on "|" (the pieces joined by
    "|" give the string back and contain no "|"); the labels of all items,
    in item order, are tallied one per occurrence, the tally listing the
    labels in first-encountered order, so that an item with K labels adds K
    to the total; and the chart shows the first ten entries of the tally
    sorted by count descending with ties in first-encountered order, which
    dominate every entry left out. *)
Theorem C7_genre_tally_and_top_ten (m : Movies.frame) :
  let genres_list := split_genres m in
  let labels := concat genres_list in
  let tally := genre_counts genres_list in
  Forall2 (fun r pieces =>
             String.concat "|" pieces = Movies.genres r /\
             forall piece n, In piece pieces -> String.get n piece <> Some "|"%char)
          (Movies.rows m) genres_list /\
  all_genres genres_list = labels /\
  map fst tally = unique String.eqb labels /\
  (forall l n,
      In (l, n) tally <->
      In l labels /\ n = Z.of_nat (count_occ string_dec labels l)) /\
  (forall l,
      count_occ string_dec labels l
      = list_sum (map (fun pieces => count_occ string_dec pieces l) genres_list)) /\
  Zsum (map snd tally) = Zsum (map (fun pieces => Z.of_nat (length pieces)) genres_list) /\
  exists sorted,
    stable_desc snd tally sorted /\
    top_genres genres_list = firstn 10 sorted /\
    length (top_genres genres_list) = Nat.min 10 (length tally) /\
    (forall a b, In a (top_genres genres_list) -> In b tally ->
                 ~ In b (top_genres genres_list) -> snd b <= snd a) /\
    forall w,
      In (Bar (map Str (map fst (top_genres (split_genres (movies_df w)))))
              (map snd (top_genres (split_genres (movies_df w)))))
         (out (fst (genre_analyzer w))).
Proof.
  cbv zeta. unfold genre_counts. rewrite all_genres_concat.
  split; [|split; [|split; [|split; [|split; [|split]]]]].
  - unfold split_genres. induction (Movies.rows m) as [|r rows IH]; constructor.
    + split; [apply concat_split|]. intros piece n. apply split_pieces.
    + exact IH.
  - reflexivity.
  - apply Counter_keys.
  - intros l n. rewrite Counter_In.
    rewrite (count_if_eqb_count_occ _ String.eqb_eq string_dec). reflexivity.
  - intros l. apply count_occ_concat.
  - rewrite Counter_map, map_map. cbn [snd].
    rewrite (Zsum_class_sizes _ String.eqb_eq).
    + apply length_concat_Zsum.
    + apply unique_NoDup, String.eqb_eq.
    + intros x Hx. apply (unique_In _ String.eqb_eq). exact Hx.
  - set (tally := Counter (concat (split_genres m))).
    exists (sort_by (fun a b => snd b <=? snd a) tally).
    pose proof (sort_desc_stable snd tally) as Hst.
    assert (Htop : top_genres (split_genres m)
                   = firstn 10 (sort_by (fun a b => snd b <=? snd a) tally)).
    { unfold top_genres, most_common, genre_counts.
      rewrite all_genres_concat. reflexivity. }
    split; [exact Hst|]. split; [exact Htop|]. split.
    + rewrite Htop, length_firstn, sort_by_length. reflexivity.
    + split.
      * intros a b Ha Hb Hnb. rewrite Htop in *.
        exact (firstn_dominates snd 10 tally _ a b Hst Ha Hb Hnb).
      * intros w. cbn [genre_analyzer fst out].
        apply in_or_app. left. apply in_or_app. right. left. reflexivity.
Qed.

(** ** Rational arithmetic of the statistics *)

Ltac Qc_to_Q :=
  unfold sq, Z2Qc;
  unfold Qcle, Qclt, Qcdiv, Qcminus, Qcplus, Qcmult, Qcopp, Qcinv, Q2Qc;
  cbn [this]; rewrite ?Qred_correct.

Lemma percent_bounds (hits n : Z) :
  0 <= hits <= n -> 0 < n ->
  (Z2Qc 0 <= Z2Qc hits / Z2Qc n * Z2Qc 100 /\
   Z2Qc hits / Z2Qc n * Z2Qc 100 <= Z2Qc 100)%Qc.
Proof.
  intros [H0 Hn] Hpos.
  assert (Ha : (0 <= inject_Z hits)%Q) by (change 0%Q with (inject_Z 0); rewrite <- Zle_Qle; exact H0).
  assert (Hb : (inject_Z hits <= inject_Z n)%Q) by (rewrite <- Zle_Qle; exact Hn).
  assert (Hc : (0 < inject_Z n)%Q) by (apply inject_Z_pos; exact Hpos).
  assert (Hq : (0 <= inject_Z hits * / inject_Z n <= 1)%Q).
  { split.
    - apply Qmult_le_0_compat; [exact Ha|].
      apply Qlt_le_weak, Qinv_lt_0_compat. exact Hc.
    - apply Qle_shift_div_r; [exact Hc|]. lra. }
  change (inject_Z 100) with 100%Q in *.
  split; Qc_to_Q; change (inject_Z 100) with 100%Q; change (inject_Z 0) with 0%Q; nra.
Qed.

Lemma mean_single (x : Qc) : mean [x] = x.
Proof.
  unfold mean, fsum. cbn [fold_right length Z.of_nat Pos.of_succ_nat].
  change (Z2Qc 0) with 0%Qc. change (Z2Qc 1) with 1%Qc.
  field. discriminate.
Qed.

Lemma sum_sq_nonneg (m : Qc) (xs : list Qc) :
  (0 <= fsum (map (fun x => sq (x - m)) xs))%Qc.
Proof.
  induction xs as [|x xs IH]; [discriminate|].
  cbn [map fsum fold_right]. fold (fsum (map (fun x => sq (x - m)) xs)).
  revert IH. generalize (fsum (map (fun x => sq (x - m)) xs)). intros t.
  Qc_to_Q. intros Ht. generalize (this x + - this m)%Q. intros d. nra.
Qed.

Lemma sample_variance_nonneg (xs : list Qc) : (0 <= sample_variance xs)%Qc.
Proof.
  destruct xs as [|x0 xs]; [discriminate|].
  unfold sample_variance.
  set (ys := x0 :: xs).
  pose proof (sum_sq_nonneg (mean ys) ys) as Hs.
  revert Hs.
  generalize (fsum (map (fun x => sq (x - mean ys)) ys)).
  intros t Ht.
  assert (Hn : 0 <= Z.of_nat (length ys) - 1) by (unfold ys; cbn [length]; lia).
  revert Ht. Qc_to_Q. intros Ht.
  apply Qmult_le_0_compat; [exact Ht|].
  apply Qinv_le_0_compat. change 0%Q with (inject_Z 0). rewrite <- Zle_Qle. exact Hn.
Qed.

(** The rounded standard deviation is a number of hundredths nearest to the
    square root of the variance: [k - 1/2 <= 100 * sqrt v <= k + 1/2]. *)
Lemma round_sqrt_spec (v : Qc) :
  (0 <= v)%Qc ->
  exists k : Z,
    0 <= k /\
    round_sqrt 2 v = (Z2Qc k / Z2Qc 100)%Qc /\
    (4 * (v * 10000) <= inject_Z ((2 * k + 1) * (2 * k + 1)))%Q /\
    (k = 0 \/ (inject_Z ((2 * k - 1) * (2 * k - 1)) <= 4 * (v * 10000))%Q).
Proof.
  intros Hv. exists (rint_sqrt (v * inject_Z (pow10 2 * pow10 2))).
  assert (Hw : (0 <= v * inject_Z (pow10 2 * pow10 2))%Q).
  { apply Qmult_le_0_compat; [exact Hv|discriminate]. }
  destruct (rint_sqrt_spec _ Hw) as [Hk [Hhi Hlo]].
  split; [exact Hk|]. split; [|split].
  - unfold round_sqrt. apply Qc_is_canon. Qc_to_Q. reflexivity.
  - exact Hhi.
  - exact Hlo.
Qed.

(** ** Rounded cells and printed decimals *)

Lemma rint_lower (a : Z) (y : Q) : (inject_Z a <= y)%Q -> a <= rint y.
Proof. intros H. rewrite <- (rint_inject_Z a). apply rint_mono. exact H. Qed.

Lemma rint_upper (b : Z) (y : Q) : (y <= inject_Z b)%Q -> rint y <= b.
Proof. intros H. rewrite <- (rint_inject_Z b). apply rint_mono. exact H. Qed.

Lemma Qc_ltb_true (x y : Qc) : Qc_ltb x y = true -> (x < y)%Q.
Proof.
  unfold Qc_ltb. intros H. apply negb_true_iff in H.
  apply Qnot_le_lt. intros Hle. apply Qle_bool_iff in Hle. congruence.
Qed.

Lemma Qc_ltb_false (x y : Qc) : Qc_ltb x y = false -> (y <= x)%Q.
Proof.
  unfold Qc_ltb. intros H. apply negb_false_iff in H.
  apply Qle_bool_iff. exact H.
Qed.

Lemma Qc_ltb_nonneg (x : Qc) : (Z2Qc 0 <= x)%Qc -> Qc_ltb x (Z2Qc 0) = false.
Proof.
  intros H. unfold Qc_ltb. apply negb_false_iff. apply Qle_bool_iff. exact H.
Qed.

(** What [fmt_f] prints is a fixed-point numeral. *)
Lemma fmt_f_fixed_point (d : nat) (x : Qc) :
  fmt_f d x
  = fixed_point d (Qc_ltb x (Z2Qc 0)) (Z.abs (rint (x * inject_Z (pow10 d)))).
Proof. reflexivity. Qed.

(** The numeral denotes the scaled value rounded to an integer. *)
Lemma fixed_point_rint (d : nat) (x : Qc) :
  (fixed_point_value d (Qc_ltb x (Z2Qc 0))
                     (Z.abs (rint (x * inject_Z (pow10 d))))
   == inject_Z (rint (x * inject_Z (pow10 d))) / inject_Z (pow10 d))%Q.
Proof.
  pose proof (inject_Z_pos _ (pow10_pos d)) as Hp.
  unfold fixed_point_value.
  destruct (Qc_ltb x (Z2Qc 0)) eqn:E.
  - apply Qc_ltb_true in E. change (this (Z2Qc 0)) with 0%Q in E.
    assert (Hr : rint (x * inject_Z (pow10 d)) <= 0).
    { apply rint_upper. change (inject_Z 0) with 0%Q. nra. }
    replace (- Z.abs (rint (x * inject_Z (pow10 d))))
      with (rint (x * inject_Z (pow10 d))) by lia.
    reflexivity.
  - apply Qc_ltb_false in E. change (this (Z2Qc 0)) with 0%Q in E.
    assert (Hr : 0 <= rint (x * inject_Z (pow10 d))).
    { apply rint_lower. change (inject_Z 0) with 0%Q. nra. }
    replace (Z.abs (rint (x * inject_Z (pow10 d))))
      with (rint (x * inject_Z (pow10 d))) by lia.
    reflexivity.
Qed.

(** It is within half a unit of its last decimal of the value printed. *)
Lemma fixed_point_near (d : nat) (x : Qc) :
  (Qabs (fixed_point_value d (Qc_ltb x (Z2Qc 0))
                           (Z.abs (rint (x * inject_Z (pow10 d)))) - x)
   <= (1 # 2) / inject_Z (pow10 d))%Q.
Proof. rewrite fixed_point_rint. apply round_error. Qed.

(** A cell rounded to two decimals is a number of hundredths within half a
    hundredth of the value, and the value itself when that has at most two
    decimals. *)
Lemma round_cell (x : Qc) :
  exists k : Z,
    round 2 x = (Z2Qc k / Z2Qc 100)%Qc /\
    (Qabs (inject_Z k / 100 - x) < 1 # 100)%Q /\
    (forall z : Z, (x * 100 == inject_Z z)%Q -> k = z).
Proof.
  exists (rint (x * inject_Z (pow10 2))). split; [|split].
  - unfold round. apply Qc_is_canon. Qc_to_Q. reflexivity.
  - eapply Qle_lt_trans; [apply (round_error 2 x)|reflexivity].
  - intros z Hz. rewrite <- (rint_inject_Z z). apply rint_comp. exact Hz.
Qed.

(** A standard deviation rounded to two decimals is a number of hundredths
    less than a hundredth away from the square root of the variance:
    [k - 1 < 100 * sqrt v < k + 1], written without the root. *)
Lemma round_sqrt_cell (v : Qc) :
  (0 <= v)%Qc ->
  exists k : Z,
    0 <= k /\
    round_sqrt 2 v = (Z2Qc k / Z2Qc 100)%Qc /\
    (v * 10000 < inject_Z ((k + 1) * (k + 1)))%Q /\
    (k = 0 \/ (inject_Z ((k - 1) * (k - 1)) < v * 10000)%Q).
Proof.
  intros Hv. destruct (round_sqrt_spec v Hv) as [k [Hk [E [Hhi Hlo]]]].
  exists k.
  assert (Hk' : (0 <= inject_Z k)%Q).
  { change 0%Q with (inject_Z 0). rewrite <- Zle_Qle. exact Hk. }
  split; [exact Hk|]. split; [exact E|].
  revert Hhi Hlo. push_inject_Z. intros Hhi Hlo. split.
  - nra.
  - destruct Hlo as [Hz|Hlo]; [left; exact Hz|].
    destruct (Z.eq_dec k 0) as [Hz|Hnz]; [left; exact Hz|right].
    assert (H1 : (1 <= inject_Z k)%Q).
    { change 1%Q with (inject_Z 1). rewrite <- Zle_Qle. lia. }
    nra.
Qed.

(** Every value is printed as a fixed-point numeral less than one unit of
    its last decimal away from it. *)
Lemma fmt_f_digits (d : nat) (x : Qc) :
  exists (negative : bool) (k : Z),
    0 <= k /\
    fmt_f d x = fixed_point d negative k /\
    (Qabs (fixed_point_value d negative k - x) <= (1 # 2) / inject_Z (pow10 d))%Q.
Proof.
  exists (Qc_ltb x (Z2Qc 0)), (Z.abs (rint (x * inject_Z (pow10 d)))).
  split; [apply Z.abs_nonneg|]. split; [apply fmt_f_fixed_point|].
  apply fixed_point_near.
Qed.

(** A value between two non-negative integers is printed without a sign,
    and its digits lie between theirs. *)
Lemma fmt_f_between (d : nat) (x : Qc) (a b : Z) :
  0 <= a -> (Z2Qc a <= x)%Qc -> (x <= Z2Qc b)%Qc ->
  exists k : Z,
    a * pow10 d <= k <= b * pow10 d /\
    fmt_f d x = fixed_point d false k /\
    (Qabs (fixed_point_value d false k - x) <= (1 # 2) / inject_Z (pow10 d))%Q.
Proof.
  intros Ha Hlo Hhi.
  pose proof (inject_Z_pos _ (pow10_pos d)) as Hp.
  assert (Ha' : (0 <= inject_Z a)%Q).
  { change 0%Q with (inject_Z 0). rewrite <- Zle_Qle. exact Ha. }
  revert Hlo Hhi. Qc_to_Q. intros Hlo Hhi.
  assert (Hneg : Qc_ltb x (Z2Qc 0) = false).
  { apply Qc_ltb_nonneg. Qc_to_Q. change (inject_Z 0) with 0%Q. lra. }
  assert (H1 : a * pow10 d <= rint (x * inject_Z (pow10 d))).
  { apply rint_lower. rewrite inject_Z_mult. nra. }
  assert (H2 : rint (x * inject_Z (pow10 d)) <= b * pow10 d).
  { apply rint_upper. rewrite inject_Z_mult. nra. }
  pose proof (pow10_pos d) as Hpz.
  assert (H0 : 0 <= rint (x * inject_Z (pow10 d))) by nia.
  exists (rint (x * inject_Z (pow10 d))).
  split; [split; assumption|]. split.
  - rewrite fmt_f_fixed_point, Hneg. f_equal. lia.
  - pose proof (fixed_point_near d x) as H. rewrite Hneg in H.
    rewrite (Z.abs_eq _ H0) in H. exact H.
Qed.

Lemma NoDup_pair : NoDup [1; 2].
Proof.
  constructor; [intros [H|[]]; discriminate H|].
  constructor; [intros []|constructor].
Qed.

Lemma example_ids (u : Z) : In u [1; 2] <-> In u [1; 1; 2].
Proof. cbn [In]. tauto. Qed.

Lemma example_items (i : Z) : In i [1; 2] <-> In i [1; 2; 1].
Proof. cbn [In]. tauto. Qed.

(** C1. With U distinct users and M_rated distinct rated items among the N
    rating rows: when [U * M_rated] is not zero the run prints the line
    "Sparsity: " followed by a fixed-point numeral with four decimals that is
    less than one unit of the fourth decimal away from
    [1 - N / (U * M_rated)]; when [U * M_rated] is zero the division raises
    [ZeroDivisionError], the run ends there, and no sparsity line is
    printed. *)
Theorem C1_sparsity (fs : filesystem) (r : list Ratings.row) (m : list Movies.row)
        (users items : list Z) :
  ratings_csv fs = Some r -> movies_csv fs = Some m ->
  NoDup users -> (forall u, In u users <-> In u (map Ratings.userId r)) ->
  NoDup items -> (forall i, In i items <-> In i (map Ratings.movieId r)) ->
  let U := Z.of_nat (length users) in
  let M_rated := Z.of_nat (length items) in
  let N := Z.of_nat (length r) in
  let sparsity := (1 - Z2Qc N / Z2Qc (U * M_rated))%Qc in
  (U * M_rated <> 0 ->
   exists (negative : bool) (k : Z),
     0 <= k /\
     In (Print ("Sparsity: " ++ fixed_point 4 negative k)) (out (fst (run fs))) /\
     (Qabs (fixed_point_value 4 negative k - sparsity) < 1 # 10000)%Q) /\
  (U * M_rated = 0 ->
   snd (run fs) = Raise ZeroDivisionError /\
   out (fst (run fs)) =
     [ Print "Successfully loaded MovieLens dataset";
       Print (nl ++ "=== DATASET OVERVIEW ===");
       Print "Users: 0";
       Print ("Movies (total): " ++ fmt_int (nunique (map Movies.movieId m)));
       Print "Movies (rated): 0";
       Print "Total ratings: 0" ]).
Proof.
  intros Hr Hm Hnu Hu Hni Hi. cbv zeta.
  rewrite <- (nunique_spec _ _ Hnu Hu), <- (nunique_spec _ _ Hni Hi).
  split.
  - intros Hnz.
    assert (Hne : r <> []).
    { intros ->. apply Hnz. reflexivity. }
    destruct (fmt_f_digits 4 (1 - Z2Qc (Z.of_nat (length r))
                                / Z2Qc (nunique (map Ratings.userId r)
                                        * nunique (map Ratings.movieId r))))
      as [negative [k [Hk [E Hnear]]]].
    exists negative, k. split; [exact Hk|]. split.
    + rewrite <- E. rewrite (run_complete fs r m Hr Hm Hne). cbn [fst out].
      do 6 right. left. reflexivity.
    + eapply Qle_lt_trans; [exact Hnear|reflexivity].
  - intros Hz.
    assert (Hnil : r = []).
    { destruct r as [|x r]; [reflexivity|]. exfalso.
      pose proof (nunique_pos (map Ratings.userId (x :: r)) ltac:(discriminate)).
      pose proof (nunique_pos (map Ratings.movieId (x :: r)) ltac:(discriminate)).
      nia. }
    subst r. apply (run_empty fs m Hr Hm).
Qed.

(** C1 on the worked example: two users, two rated items, three ratings. *)
Lemma C1_sparsity_witness :
  exists (negative : bool) (k : Z),
    0 <= k /\
    In (Print ("Sparsity: " ++ fixed_point 4 negative k))
       (out (fst (run example_fs))) /\
    (Qabs (fixed_point_value 4 negative k - (1 - Z2Qc 3 / Z2Qc (2 * 2))%Qc)
     < 1 # 10000)%Q.
Proof.
  exact (proj1 (C1_sparsity example_fs example_ratings example_movies
                  [1; 2] [1; 2] eq_refl eq_refl
                  NoDup_pair example_ids NoDup_pair example_items)
               ltac:(discriminate)).
Defined.

(** C8. A run on a non-empty ratings table ends normally.  The power-user
    share and the popular-item share - the rows whose user is among the
    selected users, respectively whose item is among the selected items, as
    a percentage of all rows - both lie between 0 and 100, and each is
    printed in its report line as an unsigned numeral with one decimal,
    between 0.0 and 100.0 and less than a tenth away from the share.  The
    selected users are at most 20 and have at least as many ratings as any
    user left out; the selected items are at most 50 rows of the joined
    popularity table and have at least as many ratings as any row left
    out. *)
Theorem C8_shares_are_percentages (fs : filesystem) (r : list Ratings.row)
        (m : list Movies.row) :
  ratings_csv fs = Some r -> movies_csv fs = Some m -> r <> [] ->
  let N := Z.of_nat (length r) in
  let power := power_users (rating_stats Ratings.userId r) in
  let popular := popular_movies_ids (merged_popularity r (Movies.mk_frame m None)) in
  let power_share := (Z2Qc (rows_isin Ratings.userId power r) / Z2Qc N * Z2Qc 100)%Qc in
  let popular_share := (Z2Qc (rows_isin Ratings.movieId popular r) / Z2Qc N * Z2Qc 100)%Qc in
  snd (run fs) = Ok tt /\
  (exists k : Z,
      0 <= k <= 1000 /\
      In (Print ("Power users (top 20): " ++ fmt_int (Z.of_nat (length power))
                 ++ " users account for " ++ fixed_point 1 false k
                 ++ "% of ratings"))
         (out (fst (run fs))) /\
      (Qabs (fixed_point_value 1 false k - power_share) < 1 # 10)%Q) /\
  (exists k : Z,
      0 <= k <= 1000 /\
      In (Print ("Popular movies (top 50): " ++ fmt_int (Z.of_nat (length popular))
                 ++ " movies account for " ++ fixed_point 1 false k
                 ++ "% of ratings"))
         (out (fst (run fs))) /\
      (Qabs (fixed_point_value 1 false k - popular_share) < 1 # 10)%Q) /\
  (Z2Qc 0 <= power_share /\ power_share <= Z2Qc 100)%Qc /\
  (Z2Qc 0 <= popular_share /\ popular_share <= Z2Qc 100)%Qc /\
  (length power <= 20)%nat /\ (length popular <= 50)%nat /\
  (forall a b,
      In a power -> In b (rating_stats Ratings.userId r) -> ~ In (fst b) power ->
      exists sa, In (a, sa) (rating_stats Ratings.userId r) /\
                 Stats.num_ratings (snd b) <= Stats.num_ratings sa) /\
  (forall a b,
      In a popular -> In b (merged_popularity r (Movies.mk_frame m None)) ->
      ~ In (Popularity.movieId b) popular ->
      exists pa, In pa (merged_popularity r (Movies.mk_frame m None)) /\
                 Popularity.movieId pa = a /\
                 Popularity.num_ratings b <= Popularity.num_ratings pa).
Proof.
  intros Hr Hm Hne. cbv zeta.
  rewrite (run_complete fs r m Hr Hm Hne). cbn [fst snd out].
  assert (HN : 0 < Z.of_nat (length r)).
  { destruct r; [congruence|]. cbn [length]. lia. }
  pose proof (percent_bounds _ _ (count_if_bounds
                (fun x => isin (Ratings.userId x)
                            (power_users (rating_stats Ratings.userId r))) r) HN)
    as Hpower.
  pose proof (percent_bounds _ _ (count_if_bounds
                (fun x => isin (Ratings.movieId x)
                            (popular_movies_ids
                               (merged_popularity r (Movies.mk_frame m None)))) r) HN)
    as Hpopular.
  fold (rows_isin Ratings.userId (power_users (rating_stats Ratings.userId r)) r)
    in Hpower.
  fold (rows_isin Ratings.movieId
          (popular_movies_ids (merged_popularity r (Movies.mk_frame m None))) r)
    in Hpopular.
  split; [reflexivity|].
  split.
  { destruct (fmt_f_between 1 _ 0 100 ltac:(lia) (proj1 Hpower) (proj2 Hpower))
      as [k [Hk [E Hnear]]].
    exists k. split; [exact Hk|]. split.
    - rewrite <- E. do 23 right. left. reflexivity.
    - eapply Qle_lt_trans; [exact Hnear|reflexivity]. }
  split.
  { destruct (fmt_f_between 1 _ 0 100 ltac:(lia) (proj1 Hpopular) (proj2 Hpopular))
      as [k [Hk [E Hnear]]].
    exists k. split; [exact Hk|]. split.
    - rewrite <- E. do 24 right. left. reflexivity.
    - eapply Qle_lt_trans; [exact Hnear|reflexivity]. }
  split; [exact Hpower|]. split; [exact Hpopular|].
  split; [|split; [|split]].
  - unfold power_users, index, nlargest. rewrite length_map. apply firstn_le_length.
  - unfold popular_movies_ids, nlargest. rewrite length_map. apply firstn_le_length.
  - intros a b Ha Hb Hnb. unfold power_users, index in Ha, Hnb.
    apply in_map_iff in Ha. destruct Ha as [[a' sa] [E Ha]]. cbn [fst] in E. subst a'.
    exists sa. split; [exact (nlargest_In _ _ _ _ Ha)|].
    apply (nlargest_dominates 20 (fun kv : Z * Stats.row => Stats.num_ratings (snd kv))
             _ (a, sa) b Ha Hb).
    intros Hin. apply Hnb. apply in_map. exact Hin.
  - intros a b Ha Hb Hnb. unfold popular_movies_ids in Ha, Hnb.
    apply in_map_iff in Ha. destruct Ha as [pa [E Ha]].
    exists pa. split; [exact (nlargest_In _ _ _ _ Ha)|]. split; [exact E|].
    apply (nlargest_dominates 50 Popularity.num_ratings _ pa b Ha Hb).
    intros Hin. apply Hnb. apply in_map. exact Hin.
Qed.

(** C8 on the worked example: the run ends normally, and both users are
    selected. *)
Lemma C8_shares_are_percentages_witness :
  snd (run example_fs) = Ok tt /\
  (length (power_users (rating_stats Ratings.userId example_ratings)) <= 20)%nat.
Proof.
  pose proof (C8_shares_are_percentages example_fs example_ratings example_movies
                eq_refl eq_refl ltac:(discriminate)) as [H1 [_ [_ [_ [_ [H2 _]]]]]].
  split; [exact H1|exact H2].
Defined.

(** ** Aggregates of one group *)

Lemma round_stats_agg (xs : list Qc) :
  xs <> [] ->
  let n := Z.of_nat (length xs) in
  round_stats 2 (agg_count_mean_std xs)
  = Stats.mk n (Some (round 2 (mean xs)))
             (if n =? 1 then None else Some (round_sqrt 2 (sample_variance xs))).
Proof.
  intros Hne. cbv zeta. unfold round_stats, agg_count_mean_std.
  cbn [Stats.count Stats.mean Stats.std_sq].
  assert (Hn : 1 <= Z.of_nat (length xs)).
  { destruct xs; [congruence|]. cbn [length]. lia. }
  destruct (Z.eqb_spec (Z.of_nat (length xs)) 0) as [E|_]; [lia|].
  destruct (Z.eqb_spec (Z.of_nat (length xs)) 1) as [E|Hne1].
  - rewrite E. reflexivity.
  - destruct (Z.leb_spec (Z.of_nat (length xs)) 1) as [Hle|_]; [lia|]. reflexivity.
Qed.

Lemma group_ratings_nonempty (key : Ratings.row -> Z) (df : list Ratings.row) (k : Z) :
  In k (map key df) ->
  map Ratings.rating (filter (fun r => key r =? k) df) <> [].
Proof.
  intros Hk Hnil. apply (group_nonempty key df k Hk).
  destruct (filter (fun r => key r =? k) df); [reflexivity|discriminate].
Qed.

Lemma single_rating_stats (key : Ratings.row -> Z) (df : list Ratings.row)
      (k : Z) (x : Ratings.row) (s : Stats.row) :
  filter (fun r => key r =? k) df = [x] ->
  In (k, s) (rating_stats key df) <->
  s = Stats.mk 1 (Some (round 2 (Ratings.rating x))) None.
Proof.
  intros Hg. rewrite rating_stats_In, Hg. cbn [map].
  assert (Hk : In k (map key df)).
  { assert (Hx : In x (filter (fun r => key r =? k) df)) by (rewrite Hg; left; reflexivity).
    apply filter_In in Hx. destruct Hx as [Hx E]. apply Z.eqb_eq in E. subst k.
    apply in_map. exact Hx. }
  assert (Hs : round_stats 2 (agg_count_mean_std [Ratings.rating x])
               = Stats.mk 1 (Some (round 2 (Ratings.rating x))) None).
  { rewrite round_stats_agg by discriminate. rewrite mean_single. reflexivity. }
  rewrite Hs. tauto.
Qed.

(** The entry of a group: its size, its mean as a number of hundredths less
    than a hundredth away from the exact mean, and its standard deviation,
    absent for a single rating and otherwise a number of hundredths less
    than a hundredth away from the square root of the sample variance. *)
Lemma rating_stats_entry (key : Ratings.row -> Z) (df : list Ratings.row)
      (g : Z) (s : Stats.row) :
  In (g, s) (rating_stats key df) ->
  let xs := map Ratings.rating (filter (fun r => key r =? g) df) in
  let n := Z.of_nat (length xs) in
  1 <= n /\
  Stats.num_ratings s = n /\
  (exists k : Z,
      Stats.avg_rating s = Some (Z2Qc k / Z2Qc 100)%Qc /\
      (Qabs (inject_Z k / 100 - mean xs) < 1 # 100)%Q) /\
  (n = 1 -> Stats.rating_std s = None) /\
  (n <> 1 ->
   exists k : Z,
     0 <= k /\
     Stats.rating_std s = Some (Z2Qc k / Z2Qc 100)%Qc /\
     (sample_variance xs * 10000 < inject_Z ((k + 1) * (k + 1)))%Q /\
     (k = 0 \/ (inject_Z ((k - 1) * (k - 1)) < sample_variance xs * 10000)%Q)).
Proof.
  intros Hin. cbv zeta. apply rating_stats_In in Hin. destruct Hin as [Hg ->].
  pose proof (group_ratings_nonempty key df g Hg) as Hne.
  rewrite (round_stats_agg _ Hne).
  cbn [Stats.num_ratings Stats.avg_rating Stats.rating_std].
  set (xs := map Ratings.rating (filter (fun r => key r =? g) df)) in *.
  split; [destruct xs; [congruence|cbn [length]; lia]|].
  split; [reflexivity|]. split; [|split].
  - destruct (round_cell (mean xs)) as [k [E [Hnear _]]].
    exists k. rewrite E. split; [reflexivity|exact Hnear].
  - intros ->. reflexivity.
  - intros Hn. destruct (Z.eqb_spec (Z.of_nat (length xs)) 1) as [E|_]; [contradiction|].
    destruct (round_sqrt_cell _ (sample_variance_nonneg xs)) as [k [Hk [E [Hhi Hlo]]]].
    exists k. rewrite E. split; [exact Hk|]. split; [reflexivity|].
    split; [exact Hhi|exact Hlo].
Qed.

(** ** The claims, continued *)

(** C4. The per-item aggregate has exactly one entry per item identifier that
    appears in the ratings table; the entry of an item carries the number of
    its ratings, their mean rounded to two decimals (a number of hundredths
    less than 0.01 away from the mean), and their sample standard deviation
    rounded to two decimals (a number of hundredths less than 0.01 away from
    the square root of the sample variance), which is absent exactly when the
    item has a single rating; the count, an integer, is unchanged by the
    rounding.  [movie_popularity] is the inner join of that aggregate with
    the titles on the item identifier, so an item without ratings has no row
    in it. *)
Theorem C4_per_item_aggregate (df : list Ratings.row) (m : Movies.frame) :
  let agg := movie_stats df in
  let ratings_of i :=
    map Ratings.rating (filter (fun r => Ratings.movieId r =? i) df) in
  NoDup (index agg) /\
  (forall i, In i (index agg) <-> In i (map Ratings.movieId df)) /\
  (forall i s,
      In (i, s) agg ->
      let n := Z.of_nat (length (ratings_of i)) in
      1 <= n /\
      Stats.num_ratings s = n /\
      (exists k : Z,
          Stats.avg_rating s = Some (Z2Qc k / Z2Qc 100)%Qc /\
          (Qabs (inject_Z k / 100 - mean (ratings_of i)) < 1 # 100)%Q) /\
      (n = 1 -> Stats.rating_std s = None) /\
      (n <> 1 ->
       exists k : Z,
         0 <= k /\
         Stats.rating_std s = Some (Z2Qc k / Z2Qc 100)%Qc /\
         (sample_variance (ratings_of i) * 10000
          < inject_Z ((k + 1) * (k + 1)))%Q /\
         (k = 0 \/
          (inject_Z ((k - 1) * (k - 1))
           < sample_variance (ratings_of i) * 10000)%Q))) /\
  (forall w,
      movie_popularity (fst (popularity_analyzer w))
      = merged_popularity (ratings_df w) (movies_df w)) /\
  (forall p,
      In p (merged_popularity df m) <->
      In (Popularity.movieId p, Popularity.stats p) agg /\
      In (Popularity.movieId p, Popularity.title p) (movie_titles m)) /\
  (forall i,
      ~ In i (map Ratings.movieId df) ->
      ~ In i (map Popularity.movieId (merged_popularity df m))).
Proof.
  cbv zeta. unfold movie_stats.
  split; [|split; [|split; [|split; [|split]]]].
  - rewrite rating_stats_index. apply groupby_index_NoDup.
  - intros i. rewrite rating_stats_index. apply groupby_index_In.
  - intros i s Hin. exact (rating_stats_entry Ratings.movieId df i s Hin).
  - intros w. reflexivity.
  - intros p. apply merge_In.
  - intros i Hi Hin. apply in_map_iff in Hin. destruct Hin as [p [<- Hp]].
    apply merge_In in Hp. destruct Hp as [Hp _].
    apply (in_map fst) in Hp. cbn [fst] in Hp. unfold movie_stats in Hp.
    change (map fst (rating_stats Ratings.movieId df))
      with (index (rating_stats Ratings.movieId df)) in Hp.
    rewrite rating_stats_index in Hp. apply (proj1 (groupby_index_In _ _ _)) in Hp. contradiction.
Qed.

(** C5, as stated: the aggregate's mean for an item with a single rating is
    that rating exactly, whatever the scale.  It is the rating rounded to two
    decimals: a single rating of 1.234 gives 1.23. *)
Lemma C5_counterexample :
  ~ (forall (df : list Ratings.row) (i : Z) (x : Ratings.row) (s : Stats.row),
        filter (fun r => Ratings.movieId r =? i) df = [x] ->
        In (i, s) (movie_stats df) ->
        Stats.avg_rating s = Some (Ratings.rating x) /\ Stats.rating_std s = None).
Proof.
  intros H.
  pose (x := Ratings.mk 1 1 (Q2Qc (1234 # 1000)) 0).
  assert (Hin : In (1, Stats.mk 1 (Some (Q2Qc (123 # 100))) None) (movie_stats [x])).
  { left. reflexivity. }
  destruct (H [x] 1 x _ eq_refl Hin) as [E _].
  cbn [Stats.avg_rating] in E. inversion E as [E'].
Qed.

(** C5, amended.  An item with exactly one rating has the entry: count 1,
    mean equal to that rating rounded to two decimals, standard deviation
    absent; the same holds for its rows in the joined table.  The rounded
    mean is a number of hundredths less than 0.01 away from the rating, and
    it is the rating itself whenever the rating has at most two decimals (as
    on the 0.5-step scale). *)
Theorem C5_single_rating_item (df : list Ratings.row) (m : Movies.frame)
        (i : Z) (x : Ratings.row) :
  filter (fun r => Ratings.movieId r =? i) df = [x] ->
  exists k : Z,
    let entry := Stats.mk 1 (Some (Z2Qc k / Z2Qc 100)%Qc) None in
    (forall s, In (i, s) (movie_stats df) <-> s = entry) /\
    (forall p, In p (merged_popularity df m) -> Popularity.movieId p = i ->
               Popularity.stats p = entry) /\
    (Qabs (inject_Z k / 100 - Ratings.rating x) < 1 # 100)%Q /\
    (forall z : Z, (Ratings.rating x * 100 == inject_Z z)%Q ->
                   (Z2Qc k / Z2Qc 100)%Qc = Ratings.rating x).
Proof.
  intros Hg. destruct (round_cell (Ratings.rating x)) as [k [E [Hnear _]]].
  exists k. cbv zeta. rewrite <- E. split; [|split; [|split]].
  - intros s. apply single_rating_stats. exact Hg.
  - intros p Hp Hi. apply merge_In in Hp. destruct Hp as [Hp _].
    rewrite Hi in Hp. apply (single_rating_stats _ _ _ _ _ Hg) in Hp. exact Hp.
  - exact Hnear.
  - intros z Hz. apply (round_exact 2 _ z). exact Hz.
Qed.

(** C5 on the worked example: item 2 has the single rating 3. *)
Lemma C5_single_rating_item_witness :
  In (2, Stats.mk 1 (Some (Z2Qc 3)) None) (movie_stats example_ratings).
Proof.
  destruct (C5_single_rating_item example_ratings
              (Movies.mk_frame example_movies None) 2
              (Ratings.mk 1 2 (Z2Qc 3) 0) eq_refl) as [k [H [_ [_ Hexact]]]].
  apply H. cbn [Ratings.rating] in *.
  rewrite (Hexact 300 ltac:(reflexivity)). reflexivity.
Defined.

Lemma column_In {V : Type} (f : Stats.row -> V) (s : Series Z Stats.row)
      (k : Z) (v : V) :
  In (k, v) (column f s) <-> exists row, In (k, row) s /\ v = f row.
Proof.
  unfold column. rewrite in_map_iff. split.
  - intros [[k' row] [E H]]. cbn [fst snd] in E. inversion E; subst.
    exists row. auto.
  - intros [row [H ->]]. exists (k, row). auto.
Qed.

Lemma dropna_In {K : Type} (s : Series K float) (k : K) (v : float) :
  In (k, v) (dropna s) <-> In (k, v) s /\ v <> None.
Proof.
  unfold dropna. rewrite filter_In. cbn [snd].
  destruct v; split; intros [H1 H2]; split; congruence.
Qed.

Lemma combine_map_In {A B C : Type} (f : A -> B) (g : A -> C) (l : list A) (a : A) :
  In a l -> In (f a, g a) (combine (map f l) (map g l)).
Proof.
  induction l as [|x l IH]; intros H; [destruct H|].
  cbn [map combine]. destruct H as [->|H]; [left; reflexivity|right; apply IH; exact H].
Qed.

(** C9. In a run, a user with exactly one rating contributes the mean (that
    rating rounded to two decimals: a value less than 0.01 away from the
    rating, and the rating itself when it has at most two decimals) to the
    mean-rating histogram and the point (1, mean) to the
    activity-versus-rating scatter, and has no entry in the data of the
    standard-deviation histogram, which holds exactly the users whose
    standard deviation is defined. *)
Theorem C9_single_rating_user_panels (fs : filesystem) (r : list Ratings.row)
        (m : list Movies.row) (u : Z) (x : Ratings.row) :
  ratings_csv fs = Some r -> movies_csv fs = Some m ->
  filter (fun row => Ratings.userId row =? u) r = [x] ->
  let stats := rating_stats Ratings.userId r in
  let mean_panel := column Stats.avg_rating stats in
  let std_panel := dropna (column Stats.rating_std stats) in
  let activity := column Stats.num_ratings stats in
  In (Hist (values mean_panel) 20) (out (fst (run fs))) /\
  In (Hist (values std_panel) 20) (out (fst (run fs))) /\
  In (Scatter (map of_int (values activity)) (values mean_panel))
     (out (fst (run fs))) /\
  (exists user_mean : Qc,
      In (u, Some user_mean) mean_panel /\
      In (of_int 1, Some user_mean)
         (combine (map of_int (values activity)) (values mean_panel)) /\
      (Qabs (user_mean - Ratings.rating x) < 1 # 100)%Q /\
      (forall z : Z, (Ratings.rating x * 100 == inject_Z z)%Q ->
                     user_mean = Ratings.rating x)) /\
  ~ In u (index std_panel) /\
  (forall v, In v (index std_panel) <->
             exists row, In (v, row) stats /\ Stats.rating_std row <> None).
Proof.
  intros Hr Hm Hg. cbv zeta.
  assert (Hne : r <> []) by (intros ->; discriminate Hg).
  rewrite (run_complete fs r m Hr Hm Hne). cbn [fst out].
  set (stats := rating_stats Ratings.userId r).
  set (entry := Stats.mk 1 (Some (round 2 (Ratings.rating x))) None).
  assert (Hentry : In (u, entry) stats).
  { apply (single_rating_stats Ratings.userId r u x entry Hg). reflexivity. }
  assert (Hstd : forall v, In v (index (dropna (column Stats.rating_std stats))) <->
                           exists row, In (v, row) stats /\ Stats.rating_std row <> None).
  { intros v. unfold index. rewrite in_map_iff. split.
    - intros [[v' s] [E H]]. cbn [fst] in E. subst v'.
      apply dropna_In in H. destruct H as [H Hs].
      apply column_In in H. destruct H as [row [H ->]]. exists row. auto.
    - intros [row [H Hs]]. exists (v, Stats.rating_std row).
      split; [reflexivity|]. apply dropna_In. split; [|exact Hs].
      apply column_In. exists row. auto. }
  split; [do 14 right; left; reflexivity|].
  split; [do 15 right; left; reflexivity|].
  split; [do 16 right; left; reflexivity|].
  split; [|split; [|exact Hstd]].
  - exists (round 2 (Ratings.rating x)). split; [|split; [|split]].
    + apply column_In. exists entry. auto.
    + unfold values, column. rewrite !map_map. cbn [snd].
      apply (combine_map_In (fun kv : Z * Stats.row => of_int (Stats.num_ratings (snd kv)))
                            (fun kv : Z * Stats.row => Stats.avg_rating (snd kv))
                            stats (u, entry) Hentry).
    + destruct (round_cell (Ratings.rating x)) as [k [E [Hnear _]]].
      rewrite E. revert Hnear. Qc_to_Q. intros Hnear. exact Hnear.
    + intros z Hz. apply (round_exact 2 _ z). exact Hz.
  - intros Hin. apply Hstd in Hin. destruct Hin as [row [Hrow Hs]].
    apply (single_rating_stats Ratings.userId r u x row Hg) in Hrow.
    subst row. apply Hs. reflexivity.
Qed.

(** C9 on the worked example: user 2 has a single rating. *)
Lemma C9_single_rating_user_panels_witness :
  In (Hist [Some (Q2Qc (400 # 100)); Some (Q2Qc (400 # 100))] 20)
     (out (fst (run example_fs))) /\
  In (Hist [Some (Q2Qc (141 # 100))] 20) (out (fst (run example_fs))) /\
  ~ In 2 (index (dropna (column Stats.rating_std
                           (rating_stats Ratings.userId example_ratings)))).
Proof.
  pose proof (C9_single_rating_user_panels example_fs example_ratings example_movies
                2 (Ratings.mk 2 1 (Z2Qc 4) 0) eq_refl eq_refl eq_refl)
    as [H1 [H2 [_ [_ [H3 _]]]]].
  split; [|split].
  - vm_compute. vm_compute in H1. exact H1.
  - vm_compute. vm_compute in H2. exact H2.
  - exact H3.
Defined.

(** ** Items missing from the items table *)

Lemma popular_In (mp : list Popularity.row) (i : Z) :
  In i (popular_movies_ids mp) -> In i (map Popularity.movieId mp).
Proof.
  unfold popular_movies_ids. rewrite !in_map_iff.
  intros [p [E H]]. exists p. split; [exact E|].
  exact (nlargest_In _ _ _ _ H).
Qed.

Lemma merged_ids_listed (df : list Ratings.row) (m : Movies.frame) (i : Z) :
  In i (map Popularity.movieId (merged_popularity df m)) ->
  In i (map Movies.movieId (Movies.rows m)).
Proof.
  rewrite in_map_iff. intros [p [<- Hp]].
  apply merge_In in Hp. destruct Hp as [_ Hp].
  unfold movie_titles in Hp. apply in_map_iff in Hp.
  destruct Hp as [row [E Hrow]]. inversion E as [[E1 E2]].
  apply in_map. exact Hrow.
Qed.

Lemma isin_In (x : Z) (l : list Z) : isin x l = true <-> In x l.
Proof. unfold isin. apply (existsb_eqb_In _ Z.eqb_eq). Qed.

(** C10. An item identifier with no row in the items table (though it has an
    entry in the aggregate whenever it is rated) has no row in the joined
    popularity table and is never among the selected popular items; the
    joined table, the selection and the number of rating rows counted for
    the popular-item share are what they would be had its ratings been
    removed from the ratings table. *)
Theorem C10_unlisted_item_never_popular (df : list Ratings.row) (m : Movies.frame)
        (i : Z) :
  ~ In i (map Movies.movieId (Movies.rows m)) ->
  let joined := merged_popularity df m in
  let others := filter (fun r => negb (Ratings.movieId r =? i)) df in
  (In i (map Ratings.movieId df) -> In i (index (movie_stats df))) /\
  ~ In i (map Popularity.movieId joined) /\
  ~ In i (popular_movies_ids joined) /\
  merged_popularity others m = joined /\
  rows_isin Ratings.movieId (popular_movies_ids joined) df
  = rows_isin Ratings.movieId
              (popular_movies_ids (merged_popularity others m)) others /\
  (forall w,
      movie_popularity (fst (popularity_analyzer w))
      = merged_popularity (ratings_df w) (movies_df w)).
Proof.
  intros Hi. cbv zeta.
  assert (Hmp : ~ In i (map Popularity.movieId (merged_popularity df m))).
  { intros H. apply Hi. exact (merged_ids_listed df m i H). }
  assert (Hpop : ~ In i (popular_movies_ids (merged_popularity df m))).
  { intros H. apply Hmp. apply popular_In. exact H. }
  assert (Hsame : merged_popularity
                    (filter (fun r => negb (Ratings.movieId r =? i)) df) m
                  = merged_popularity df m).
  { unfold merged_popularity, movie_stats.
    rewrite (rating_stats_filter Ratings.movieId (fun k => negb (k =? i)) df).
    apply (merge_drop_unmatched (fun k => negb (k =? i))).
    intros k Hk Hin. apply negb_false_iff, Z.eqb_eq in Hk. subst k.
    apply Hi. unfold movie_titles in Hin. rewrite map_map in Hin. exact Hin. }
  split; [|split; [exact Hmp|split; [exact Hpop|split; [exact Hsame|split]]]].
  - intros H. unfold movie_stats. rewrite rating_stats_index.
    apply groupby_index_In. exact H.
  - rewrite Hsame. unfold rows_isin, count_if. f_equal.
    rewrite filter_comm. f_equal. symmetry. apply filter_all.
    intros x Hx. apply filter_In in Hx. destruct Hx as [_ Hx].
    apply isin_In in Hx. apply negb_true_iff, Z.eqb_neq. intros E.
    apply Hpop. rewrite <- E. exact Hx.
  - intros w. reflexivity.
Qed.

(** C10 on the worked example with item 2 missing from the items table. *)
Lemma C10_unlisted_item_never_popular_witness :
  ~ In 2 (popular_movies_ids
            (merged_popularity example_ratings
               (Movies.mk_frame [Movies.mk 1 "T1" "Action"] None))).
Proof.
  refine (proj1 (proj2 (proj2
            (C10_unlisted_item_never_popular example_ratings
               (Movies.mk_frame [Movies.mk 1 "T1" "Action"] None) 2 _)))).
  cbn. intros [H|[]]. discriminate H.
Defined.

(** ** How a run ends *)

(** X2. A run that ends normally has saved exactly the four figures, in the
    order basic distributions, popularity, user behaviour, genres; a run
    that ends in [exit()] (a file is missing) or in the [ZeroDivisionError]
    of the overview (no rating row) has saved none. *)
Theorem X2_saved_figures (fs : filesystem) :
  (snd (run fs) = Ok tt ->
   saved_figures (out (fst (run fs)))
   = [ "basic_distributions.png"; "popularity_vs_rating.png";
       "user_behavior_analysis.png"; "genre_distribution.png" ]%string) /\
  (snd (run fs) = Raise SystemExit ->
   saved_figures (out (fst (run fs))) = []) /\
  (snd (run fs) = Raise ZeroDivisionError ->
   saved_figures (out (fst (run fs))) = []).
Proof.
  destruct (ratings_csv fs) as [r|] eqn:Hr.
  - destruct (movies_csv fs) as [m|] eqn:Hm.
    + destruct r as [|x r].
      * destruct (run_empty fs m Hr Hm) as [E Ho]. rewrite E, Ho.
        repeat split; intros H; try discriminate H; reflexivity.
      * rewrite (run_complete fs (x :: r) m Hr Hm ltac:(discriminate)).
        cbn [fst snd out].
        repeat split; intros H; try discriminate H; reflexivity.
    + destruct (run_missing fs (or_intror Hm)) as [E Ho]. rewrite E, Ho.
      repeat split; intros H; try discriminate H; reflexivity.
  - destruct (run_missing fs (or_introl Hr)) as [E Ho]. rewrite E, Ho.
    repeat split; intros H; try discriminate H; reflexivity.
Qed.

(** X2 on the worked example, which ends normally. *)
Lemma X2_saved_figures_witness :
  saved_figures (out (fst (run example_fs)))
  = [ "basic_distributions.png"; "popularity_vs_rating.png";
      "user_behavior_analysis.png"; "genre_distribution.png" ]%string.
Proof.
  apply (proj1 (X2_saved_figures example_fs)). vm_compute. reflexivity.
Defined.

(** ** The overview figures *)

Lemma unique_length_le {A : Type} (eqb : A -> A -> bool) (l : list A) :
  (length (unique eqb l) <= length l)%nat.
Proof.
  induction l as [|x l IH]; [apply Nat.le_refl|].
  cbn [unique length].
  pose proof (filter_length_le (fun y => negb (eqb x y)) (unique eqb l)). lia.
Qed.

Lemma nunique_bounds (ks : list Z) :
  ks <> [] -> 1 <= nunique ks <= Z.of_nat (length ks).
Proof.
  intros H. pose proof (nunique_pos ks H).
  pose proof (unique_length_le Z.eqb ks). unfold nunique in *. lia.
Qed.

(** More distinct values cannot come out of fewer: [nunique] is monotone
    for inclusion. *)
Lemma nunique_incl (ks ks' : list Z) :
  incl ks ks' -> nunique ks <= nunique ks'.
Proof.
  intros H. unfold nunique. apply inj_le. apply NoDup_incl_length.
  - apply unique_NoDup, Z.eqb_eq.
  - intros k Hk. apply (unique_In _ Z.eqb_eq). apply H.
    apply (proj1 (unique_In _ Z.eqb_eq _ _)) in Hk. exact Hk.
Qed.

Lemma Z2Qc_div_ge_1 (n d : Z) :
  0 < d -> d <= n -> (Z2Qc 1 <= Z2Qc n / Z2Qc d)%Qc.
Proof.
  intros Hd Hn. Qc_to_Q.
  apply Qle_shift_div_l; [apply inject_Z_pos; exact Hd|].
  rewrite Qmult_1_l, <- Zle_Qle. exact Hn.
Qed.

Lemma Z2Qc_div_pos (n d : Z) :
  0 < n -> 0 < d -> (0 < inject_Z n * / inject_Z d)%Q.
Proof.
  intros Hn Hd. apply Qlt_shift_div_l; [apply inject_Z_pos; exact Hd|].
  rewrite Qmult_0_l. apply inject_Z_pos. exact Hn.
Qed.

Lemma Z2Qc_div_le_1 (n d : Z) :
  0 < d -> n <= d -> (inject_Z n * / inject_Z d <= 1)%Q.
Proof.
  intros Hd Hn. apply Qle_shift_div_r; [apply inject_Z_pos; exact Hd|].
  rewrite Qmult_1_l, <- Zle_Qle. exact Hn.
Qed.

Lemma Z2Qc_div_le (n d : Z) :
  0 <= n -> 1 <= d -> (Z2Qc n / Z2Qc d <= Z2Qc n)%Qc.
Proof.
  intros Hn Hd. Qc_to_Q.
  apply Qle_shift_div_r; [apply inject_Z_pos; lia|].
  rewrite <- inject_Z_mult, <- Zle_Qle. nia.
Qed.

(** The overview's average [n / d] of a count per distinct key, [1 <= d <= n],
    is printed as an unsigned numeral with one decimal that is at least 1.0
    and less than a tenth away from the quotient. *)
Lemma average_digits (n d : Z) :
  1 <= d <= n ->
  exists k : Z,
    10 <= k /\
    fmt_f 1 (Z2Qc n / Z2Qc d) = fixed_point 1 false k /\
    (Qabs (fixed_point_value 1 false k - (Z2Qc n / Z2Qc d)%Qc) < 1 # 10)%Q.
Proof.
  intros [Hd Hn].
  destruct (fmt_f_between 1 (Z2Qc n / Z2Qc d) 1 n ltac:(lia)
              (Z2Qc_div_ge_1 n d ltac:(lia) Hn)
              (Z2Qc_div_le n d ltac:(lia) Hd))
    as [k [[Hk _] [E Hnear]]].
  exists k. split; [exact Hk|]. split; [exact E|].
  eapply Qle_lt_trans; [exact Hnear|reflexivity].
Qed.

(** X3. In a run on a non-empty ratings table there are at least one and
    at most N distinct users and rated items, so the two averages of the
    overview are at least 1, each is printed as an unsigned numeral with one
    decimal that is at least 1.0 and less than a tenth away from it, and the
    sparsity is strictly below 1. *)
Theorem X3_overview_bounds (fs : filesystem) (r : list Ratings.row)
        (m : list Movies.row) :
  ratings_csv fs = Some r -> movies_csv fs = Some m -> r <> [] ->
  let U := nunique (map Ratings.userId r) in
  let M_rated := nunique (map Ratings.movieId r) in
  let N := Z.of_nat (length r) in
  1 <= U <= N /\ 1 <= M_rated <= N /\
  (exists k : Z,
      10 <= k /\
      In (Print ("Avg ratings per user: " ++ fixed_point 1 false k))
         (out (fst (run fs))) /\
      (Qabs (fixed_point_value 1 false k - (Z2Qc N / Z2Qc U)%Qc) < 1 # 10)%Q) /\
  (exists k : Z,
      10 <= k /\
      In (Print ("Avg ratings per movie: " ++ fixed_point 1 false k))
         (out (fst (run fs))) /\
      (Qabs (fixed_point_value 1 false k - (Z2Qc N / Z2Qc M_rated)%Qc) < 1 # 10)%Q) /\
  (Z2Qc 1 <= Z2Qc N / Z2Qc U)%Qc /\
  (Z2Qc 1 <= Z2Qc N / Z2Qc M_rated)%Qc /\
  (1 - Z2Qc N / Z2Qc (U * M_rated) < Z2Qc 1)%Qc.
Proof.
  intros Hr Hm Hne. cbv zeta.
  assert (HU : 1 <= nunique (map Ratings.userId r) <= Z.of_nat (length r)).
  { rewrite <- (length_map Ratings.userId r). apply nunique_bounds.
    destruct r; [congruence|discriminate]. }
  assert (HM : 1 <= nunique (map Ratings.movieId r) <= Z.of_nat (length r)).
  { rewrite <- (length_map Ratings.movieId r). apply nunique_bounds.
    destruct r; [congruence|discriminate]. }
  rewrite (run_complete fs r m Hr Hm Hne). cbn [fst out].
  split; [exact HU|]. split; [exact HM|].
  split.
  { destruct (average_digits _ _ HU) as [k [Hk [E Hnear]]].
    exists k. split; [exact Hk|]. split; [|exact Hnear].
    rewrite <- E. do 7 right. left. reflexivity. }
  split.
  { destruct (average_digits _ _ HM) as [k [Hk [E Hnear]]].
    exists k. split; [exact Hk|]. split; [|exact Hnear].
    rewrite <- E. do 8 right. left. reflexivity. }
  split; [apply Z2Qc_div_ge_1; lia|].
  split; [apply Z2Qc_div_ge_1; lia|].
  pose proof (Z2Qc_div_pos (Z.of_nat (length r))
                (nunique (map Ratings.userId r) * nunique (map Ratings.movieId r))
                ltac:(lia) ltac:(nia)) as Hpos.
  revert Hpos. Qc_to_Q. intros Hpos. change (inject_Z 1) with 1%Q. lra.
Qed.

(** X3 on the worked example: two users and two rated items in three rows. *)
Lemma X3_overview_bounds_witness :
  1 <= nunique (map Ratings.userId example_ratings) <= 3 /\
  1 <= nunique (map Ratings.movieId example_ratings) <= 3.
Proof.
  pose proof (X3_overview_bounds example_fs example_ratings example_movies
                eq_refl eq_refl ltac:(discriminate)) as [H1 [H2 _]].
  split; [exact H1|exact H2].
Defined.

Lemma pairs_in_product (r : list Ratings.row) :
  incl (map (fun x => (Ratings.userId x, Ratings.movieId x)) r)
       (list_prod (unique Z.eqb (map Ratings.userId r))
                  (unique Z.eqb (map Ratings.movieId r))).
Proof.
  intros [u i] H. apply in_map_iff in H. destruct H as [x [E Hx]].
  inversion E; subst. apply in_prod; apply (unique_In _ Z.eqb_eq);
    apply in_map; exact Hx.
Qed.

(** X4. When no (user, item) pair is rated twice, the ratings fit in the
    user-by-item matrix, [N <= U * M_rated], and the sparsity that the
    overview prints is not negative. *)
Theorem X4_sparsity_not_negative (r : list Ratings.row) :
  r <> [] ->
  NoDup (map (fun x => (Ratings.userId x, Ratings.movieId x)) r) ->
  let U := nunique (map Ratings.userId r) in
  let M_rated := nunique (map Ratings.movieId r) in
  let N := Z.of_nat (length r) in
  N <= U * M_rated /\
  (Z2Qc 0 <= 1 - Z2Qc N / Z2Qc (U * M_rated))%Qc.
Proof.
  intros Hne Hnd. cbv zeta.
  assert (HN : Z.of_nat (length r)
               <= nunique (map Ratings.userId r) * nunique (map Ratings.movieId r)).
  { pose proof (NoDup_incl_length Hnd (pairs_in_product r)) as H.
    rewrite length_map, length_prod in H. unfold nunique. lia. }
  split; [exact HN|].
  assert (Hpos : 0 < nunique (map Ratings.userId r) * nunique (map Ratings.movieId r)).
  { destruct r; [congruence|]. cbn [length] in HN. lia. }
  pose proof (Z2Qc_div_le_1 _ _ Hpos HN) as Hle.
  revert Hle. Qc_to_Q. intros Hle. change (inject_Z 0) with 0%Q. lra.
Qed.

Lemma example_pairs_NoDup :
  NoDup (map (fun x => (Ratings.userId x, Ratings.movieId x)) example_ratings).
Proof.
  cbn. repeat constructor; cbn; intros H;
    repeat (destruct H as [H|H]; [discriminate H|]); exact H.
Qed.

(** X4 on the worked example: three ratings in a two-by-two matrix. *)
Lemma X4_sparsity_not_negative_witness :
  3 <= nunique (map Ratings.userId example_ratings)
       * nunique (map Ratings.movieId example_ratings).
Proof.
  exact (proj1 (X4_sparsity_not_negative example_ratings ltac:(discriminate)
                  example_pairs_NoDup)).
Defined.

(** X5. When every rated item has a row in the items table, the overview's
    count of rated items does not exceed its count of items in total. *)
Theorem X5_rated_items_within_total (fs : filesystem) (r : list Ratings.row)
        (m : list Movies.row) :
  ratings_csv fs = Some r -> movies_csv fs = Some m -> r <> [] ->
  incl (map Ratings.movieId r) (map Movies.movieId m) ->
  let M_rated := nunique (map Ratings.movieId r) in
  let M_total := nunique (map Movies.movieId m) in
  In (Print ("Movies (total): " ++ fmt_int M_total)) (out (fst (run fs))) /\
  In (Print ("Movies (rated): " ++ fmt_int M_rated)) (out (fst (run fs))) /\
  M_rated <= M_total.
Proof.
  intros Hr Hm Hne Hincl. cbv zeta.
  rewrite (run_complete fs r m Hr Hm Hne). cbn [fst out].
  split; [do 3 right; left; reflexivity|].
  split; [do 4 right; left; reflexivity|].
  apply nunique_incl. exact Hincl.
Qed.

Lemma example_rated_listed :
  incl (map Ratings.movieId example_ratings) (map Movies.movieId example_movies).
Proof. intros i H. cbn in *. tauto. Qed.

(** X5 on the worked example. *)
Lemma X5_rated_items_within_total_witness :
  In (Print "Movies (total): 2") (out (fst (run example_fs))) /\
  In (Print "Movies (rated): 2") (out (fst (run example_fs))).
Proof.
  pose proof (X5_rated_items_within_total example_fs example_ratings example_movies
                eq_refl eq_refl ltac:(discriminate) example_rated_listed)
    as [H1 [H2 _]].
  split; [exact H1|exact H2].
Defined.

(** ** Group sizes *)

Section GroupSizes.
Context {R : Type} (key : R -> Z).

Lemma group_length (df : list R) (k : Z) :
  Z.of_nat (length (filter (fun r => key r =? k) df))
  = count_if (Z.eqb k) (map key df).
Proof.
  unfold count_if. f_equal.
  induction df as [|r df IH]; [reflexivity|].
  cbn [filter map]. rewrite (Z.eqb_sym k (key r)).
  destruct (key r =? k); cbn [length]; rewrite IH; reflexivity.
Qed.

Lemma groupby_index_strict (df : list R) :
  StronglySorted Z.lt (index (groupby key df)).
Proof.
  pose proof (groupby_index_NoDup key df) as Hnd.
  rewrite groupby_index in *.
  pose proof (sort_by_sorted Z.leb Zleb_total Zleb_trans
                (unique Z.eqb (map key df))) as Hs.
  revert Hnd. induction Hs as [|x l Hs IH Hall]; intros Hnd; constructor;
    inversion Hnd as [|? ? Hx Hnd']; subst; [apply IH; exact Hnd'|].
  rewrite Forall_forall in *. intros y Hy.
  specialize (Hall y Hy). apply Z.leb_le in Hall.
  assert (x <> y) by (intros ->; contradiction). lia.
Qed.

Lemma groupby_size_index (df : list R) :
  index (groupby_size key df) = index (groupby key df).
Proof. unfold index, groupby_size. rewrite map_map. reflexivity. Qed.

Lemma groupby_size_In (df : list R) (k n : Z) :
  In (k, n) (groupby_size key df) <->
  In k (map key df) /\ n = count_if (Z.eqb k) (map key df).
Proof.
  unfold groupby_size. rewrite in_map_iff. split.
  - intros [[k' g] [E Hg]]. cbn [fst snd] in E. inversion E; subst.
    apply groupby_In in Hg. destruct Hg as [Hk ->].
    split; [exact Hk|apply group_length].
  - intros [Hk ->]. exists (k, filter (fun r => key r =? k) df). split.
    + cbn [fst snd]. rewrite group_length. reflexivity.
    + apply groupby_In. auto.
Qed.

Lemma groupby_size_total (df : list R) :
  Zsum (values (groupby_size key df)) = Z.of_nat (length df).
Proof.
  unfold values, groupby_size, groupby. rewrite !map_map. cbn [fst snd].
  rewrite (map_ext _ (fun k => count_if (Z.eqb k) (map key df)))
    by (intros; apply group_length).
  rewrite (Zsum_perm _ _ (Permutation_map _ (sort_by_perm Z.leb _))).
  rewrite (Zsum_class_sizes _ Z.eqb_eq).
  - rewrite length_map. reflexivity.
  - apply unique_NoDup, Z.eqb_eq.
  - intros x Hx. apply (unique_In _ Z.eqb_eq). exact Hx.
Qed.
End GroupSizes.

Lemma rating_stats_counts (key : Ratings.row -> Z) (df : list Ratings.row) :
  column Stats.num_ratings (rating_stats key df) = groupby_size key df.
Proof.
  unfold column, rating_stats, groupby_size. rewrite map_map.
  apply map_ext. intros [k g]. cbn [fst snd]. f_equal.
  unfold round_stats, agg_count_mean_std. cbn [Stats.num_ratings Stats.count].
  rewrite length_map. reflexivity.
Qed.

(** X6. The user-activity data has one entry per distinct user, in strictly
    ascending order of user identifier; the entry of a user is the number of
    that user's rating rows, at least 1; the entries add up to the number of
    rows; they are the [num_ratings] column of the per-user aggregate; and
    their values are what the 30-bin histogram is drawn from. *)
Theorem X6_user_activity (df : list Ratings.row) :
  let users := map Ratings.userId df in
  StronglySorted Z.lt (index (user_activity df)) /\
  (forall u, In u (index (user_activity df)) <-> In u users) /\
  (forall u n,
      In (u, n) (user_activity df) <->
      In u users /\ n = Z.of_nat (count_occ Z.eq_dec users u)) /\
  (forall u n, In (u, n) (user_activity df) -> 1 <= n) /\
  Zsum (values (user_activity df)) = Z.of_nat (length df) /\
  user_activity df
  = column Stats.num_ratings (rating_stats Ratings.userId df) /\
  (forall w,
      In (Hist (map of_int (values (user_activity (ratings_df w)))) 30)
         (out (fst (distribution_analyzer w)))).
Proof.
  cbv zeta. unfold user_activity.
  assert (Hin : forall u n,
             In (u, n) (groupby_size Ratings.userId df) <->
             In u (map Ratings.userId df) /\
             n = Z.of_nat (count_occ Z.eq_dec (map Ratings.userId df) u)).
  { intros u n. rewrite groupby_size_In.
    rewrite (count_if_eqb_count_occ _ Z.eqb_eq Z.eq_dec). reflexivity. }
  split; [|split; [|split; [|split; [|split; [|split]]]]].
  - rewrite groupby_size_index. apply groupby_index_strict.
  - intros u. rewrite groupby_size_index. apply groupby_index_In.
  - exact Hin.
  - intros u n H. apply Hin in H. destruct H as [Hu ->].
    apply (count_occ_In Z.eq_dec) in Hu. lia.
  - apply groupby_size_total.
  - symmetry. apply rating_stats_counts.
  - intros w. cbn [distribution_analyzer fst out].
    apply in_or_app. left. apply in_or_app. right. left. reflexivity.
Qed.

(** X7. The per-user aggregate that the user-behaviour stage stores has one
    row per distinct user, in strictly ascending order of user identifier;
    the row of a user carries the number of that user's ratings, their mean
    rounded to two decimals (a number of hundredths less than 0.01 away from
    the mean) and their sample standard deviation rounded to two decimals (a
    number of hundredths less than 0.01 away from the square root of the
    sample variance), absent exactly for a single rating; and the counts of
    all rows add up to the number of rating rows. *)
Theorem X7_per_user_aggregate (df : list Ratings.row) :
  let stats := rating_stats Ratings.userId df in
  let ratings_of u :=
    map Ratings.rating (filter (fun r => Ratings.userId r =? u) df) in
  StronglySorted Z.lt (index stats) /\
  (forall u, In u (index stats) <-> In u (map Ratings.userId df)) /\
  (forall u s,
      In (u, s) stats ->
      let n := Z.of_nat (length (ratings_of u)) in
      1 <= n /\
      Stats.num_ratings s = n /\
      (exists k : Z,
          Stats.avg_rating s = Some (Z2Qc k / Z2Qc 100)%Qc /\
          (Qabs (inject_Z k / 100 - mean (ratings_of u)) < 1 # 100)%Q) /\
      (n = 1 -> Stats.rating_std s = None) /\
      (n <> 1 ->
       exists k : Z,
         0 <= k /\
         Stats.rating_std s = Some (Z2Qc k / Z2Qc 100)%Qc /\
         (sample_variance (ratings_of u) * 10000
          < inject_Z ((k + 1) * (k + 1)))%Q /\
         (k = 0 \/
          (inject_Z ((k - 1) * (k - 1))
           < sample_variance (ratings_of u) * 10000)%Q))) /\
  Zsum (values (column Stats.num_ratings stats)) = Z.of_nat (length df) /\
  (forall w,
      user_stats (fst (user_behavior_analyzer w))
      = rating_stats Ratings.userId (ratings_df w)).
Proof.
  cbv zeta. split; [|split; [|split; [|split]]].
  - rewrite rating_stats_index. apply groupby_index_strict.
  - intros u. rewrite rating_stats_index. apply groupby_index_In.
  - intros u s Hin. exact (rating_stats_entry Ratings.userId df u s Hin).
  - rewrite rating_stats_counts. apply groupby_size_total.
  - intros w. reflexivity.
Qed.

(** ** Rounding is monotone *)

Lemma round_mono (d : nat) (x y : Qc) : (x <= y)%Qc -> (round d x <= round d y)%Qc.
Proof.
  intros Hxy. unfold round.
  pose proof (inject_Z_pos _ (pow10_pos d)) as Hp.
  assert (Hm : (x * inject_Z (pow10 d) <= y * inject_Z (pow10 d))%Q).
  { apply Qmult_le_compat_r; [exact Hxy|apply Qlt_le_weak; exact Hp]. }
  pose proof (rint_mono _ _ Hm) as Hr. rewrite Zle_Qle in Hr.
  Qc_to_Q. apply Qmult_le_compat_r; [exact Hr|].
  apply Qlt_le_weak, Qinv_lt_0_compat. exact Hp.
Qed.

(** ** Means *)

Lemma inject_Z_of_nat_succ (n : nat) :
  (inject_Z (Z.of_nat (S n)) == inject_Z (Z.of_nat n) + 1)%Q.
Proof. rewrite Nat2Z.inj_succ. unfold Z.succ. apply inject_Z_succ. Qed.

Lemma fsum_cons (x : Qc) (xs : list Qc) : (fsum (x :: xs) == x + fsum xs)%Q.
Proof. unfold fsum. cbn [fold_right]. Qc_to_Q. reflexivity. Qed.

Lemma fsum_bounds (lo hi : Qc) (xs : list Qc) :
  (forall x, In x xs -> (lo <= x /\ x <= hi)%Qc) ->
  (inject_Z (Z.of_nat (length xs)) * lo <= fsum xs /\
   fsum xs <= inject_Z (Z.of_nat (length xs)) * hi)%Q.
Proof.
  induction xs as [|x xs IH]; intros H.
  - cbn. split; discriminate.
  - destruct (H x (or_introl eq_refl)) as [Hlo Hhi].
    destruct IH as [IH1 IH2]; [intros y Hy; apply H; right; exact Hy|].
    rewrite fsum_cons. cbn [length]. rewrite inject_Z_of_nat_succ.
    unfold Qcle in Hlo, Hhi. split; nra.
Qed.

Lemma mean_bounds (lo hi : Qc) (xs : list Qc) :
  xs <> [] ->
  (forall x, In x xs -> (lo <= x /\ x <= hi)%Qc) ->
  (lo <= mean xs /\ mean xs <= hi)%Qc.
Proof.
  intros Hne H. destruct (fsum_bounds lo hi xs H) as [H1 H2].
  assert (Hn : (0 < inject_Z (Z.of_nat (length xs)))%Q).
  { apply inject_Z_pos. destruct xs; [congruence|cbn [length]; lia]. }
  unfold mean. split; Qc_to_Q.
  - apply Qle_shift_div_l; [exact Hn|]. rewrite Qmult_comm. exact H1.
  - apply Qle_shift_div_r; [exact Hn|]. rewrite Qmult_comm. exact H2.
Qed.

Lemma avg_rating_within_scale (key : Ratings.row -> Z) (df : list Ratings.row)
      (lo hi : Qc) (zlo zhi : Z) (k : Z) (s : Stats.row) :
  (lo * 100 == inject_Z zlo)%Q -> (hi * 100 == inject_Z zhi)%Q ->
  (forall x, In x df -> (lo <= Ratings.rating x /\ Ratings.rating x <= hi)%Qc) ->
  In (k, s) (rating_stats key df) ->
  exists a, Stats.avg_rating s = Some a /\ (lo <= a /\ a <= hi)%Qc.
Proof.
  intros Hlo Hhi Hin Hs. apply rating_stats_In in Hs. destruct Hs as [Hk ->].
  pose proof (group_ratings_nonempty key df k Hk) as Hne.
  rewrite (round_stats_agg _ Hne). cbn [Stats.avg_rating].
  eexists. split; [reflexivity|].
  assert (Hm : (lo <= mean (map Ratings.rating (filter (fun r => key r =? k) df))
                /\ mean (map Ratings.rating (filter (fun r => key r =? k) df)) <= hi)%Qc).
  { apply mean_bounds; [exact Hne|]. intros x Hx. apply in_map_iff in Hx.
    destruct Hx as [row [<- Hrow]]. apply Hin. apply filter_In in Hrow. apply Hrow. }
  destruct Hm as [Hm1 Hm2].
  split.
  - rewrite <- (round_exact 2 lo zlo Hlo) at 1. apply round_mono. exact Hm1.
  - rewrite <- (round_exact 2 hi zhi Hhi) at 1. apply round_mono. exact Hm2.
Qed.

(** X8. When every rating lies between two bounds that have at most two
    decimals (such as 0.5 and 5.0), so does every mean of the per-user
    aggregate, of the per-item aggregate and of the joined popularity table:
    rounding to two decimals does not take a mean off the rating scale. *)
Theorem X8_means_within_scale (df : list Ratings.row) (m : Movies.frame)
        (lo hi : Qc) (zlo zhi : Z) :
  (lo * 100 == inject_Z zlo)%Q -> (hi * 100 == inject_Z zhi)%Q ->
  (forall x, In x df -> (lo <= Ratings.rating x /\ Ratings.rating x <= hi)%Qc) ->
  (forall u s, In (u, s) (rating_stats Ratings.userId df) ->
     exists a, Stats.avg_rating s = Some a /\ (lo <= a /\ a <= hi)%Qc) /\
  (forall i s, In (i, s) (movie_stats df) ->
     exists a, Stats.avg_rating s = Some a /\ (lo <= a /\ a <= hi)%Qc) /\
  (forall p, In p (merged_popularity df m) ->
     exists a, Popularity.avg_rating p = Some a /\ (lo <= a /\ a <= hi)%Qc).
Proof.
  intros Hlo Hhi Hin. split; [|split].
  - intros u s. apply (avg_rating_within_scale _ _ lo hi zlo zhi); assumption.
  - intros i s. apply (avg_rating_within_scale _ _ lo hi zlo zhi); assumption.
  - intros p Hp. apply merge_In in Hp. destruct Hp as [Hp _].
    exact (avg_rating_within_scale _ _ lo hi zlo zhi _ _ Hlo Hhi Hin Hp).
Qed.

Lemma example_scale (x : Ratings.row) :
  In x example_ratings ->
  (Z2Qc 3 <= Ratings.rating x /\ Ratings.rating x <= Z2Qc 5)%Qc.
Proof.
  intros [<-|[<-|[<-|[]]]]; split; discriminate.
Qed.

(** X8 on the worked example, whose ratings lie between 3 and 5. *)
Lemma X8_means_within_scale_witness :
  Forall (fun p => exists a, Popularity.avg_rating p = Some a /\
                             (Z2Qc 3 <= a /\ a <= Z2Qc 5)%Qc)
         (merged_popularity example_ratings (Movies.mk_frame example_movies None)).
Proof.
  apply Forall_forall.
  exact (proj2 (proj2 (X8_means_within_scale example_ratings
                         (Movies.mk_frame example_movies None)
                         (Z2Qc 3) (Z2Qc 5) 300 500
                         ltac:(reflexivity) ltac:(reflexivity) example_scale))).
Defined.

(** ** Groups of equal ratings *)

Lemma Z2Qc_succ (n : nat) : Z2Qc (Z.of_nat (S n)) = (Z2Qc (Z.of_nat n) + 1)%Qc.
Proof.
  apply Qc_is_canon. Qc_to_Q. apply inject_Z_of_nat_succ.
Qed.

Lemma Z2Qc_nonzero (z : Z) : z <> 0 -> Z2Qc z <> Z2Qc 0.
Proof.
  intros Hz E. apply (f_equal this) in E. unfold Z2Qc, Q2Qc in E. cbn [this] in E.
  assert (H : (inject_Z z == inject_Z 0)%Q).
  { rewrite <- (Qred_correct (inject_Z z)), E. apply Qred_correct. }
  apply Hz. unfold Qeq in H. cbn in H. lia.
Qed.

Lemma fsum_repeat (c : Qc) (n : nat) :
  fsum (repeat c n) = (Z2Qc (Z.of_nat n) * c)%Qc.
Proof.
  induction n as [|n IH].
  - cbn [repeat fsum fold_right Z.of_nat]. change (Z2Qc 0) with 0%Qc. ring.
  - cbn [repeat]. unfold fsum in *. cbn [fold_right]. rewrite IH, Z2Qc_succ. ring.
Qed.

Lemma constant_list {A : Type} (c : A) (xs : list A) :
  (forall x, In x xs -> x = c) -> xs = repeat c (length xs).
Proof.
  induction xs as [|x xs IH]; intros H; [reflexivity|].
  cbn [length repeat]. rewrite (H x (or_introl eq_refl)). f_equal.
  apply IH. intros y Hy. apply H. right. exact Hy.
Qed.

Lemma mean_repeat (c : Qc) (n : nat) : mean (repeat c (S n)) = c.
Proof.
  unfold mean. rewrite fsum_repeat, repeat_length.
  pose proof (Z2Qc_nonzero (Z.of_nat (S n)) ltac:(lia)) as Hnz.
  change (Z2Qc 0) with 0%Qc in Hnz. field. exact Hnz.
Qed.

Lemma sample_variance_repeat (c : Qc) (n : nat) :
  sample_variance (repeat c (S n)) = Z2Qc 0.
Proof.
  unfold sample_variance. rewrite mean_repeat.
  assert (E : map (fun x => sq (x - c)) (repeat c (S n)) = repeat 0%Qc (S n)).
  { rewrite map_repeat. f_equal. unfold sq. ring. }
  rewrite E, fsum_repeat. change (Z2Qc 0) with 0%Qc. unfold Qcdiv. ring.
Qed.

(** X9. A user whose ratings, at least two of them, are all the same value
    has that value rounded to two decimals as mean (less than 0.01 away from
    the value, and the value itself when it has at most two decimals) and 0
    as standard deviation, and so is on the standard-deviation panel with
    the value 0. *)
Theorem X9_equal_ratings_std_zero (df : list Ratings.row) (u : Z) (c : Qc) :
  (2 <= length (filter (fun r => (Ratings.userId r =? u)%Z) df))%nat ->
  (forall x, In x df -> Ratings.userId x = u -> Ratings.rating x = c) ->
  let stats := rating_stats Ratings.userId df in
  let n := Z.of_nat (length (filter (fun r => Ratings.userId r =? u) df)) in
  (exists a : Qc,
      In (u, Stats.mk n (Some a) (Some (Z2Qc 0))) stats /\
      (Qabs (a - c) < 1 # 100)%Q /\
      (forall z : Z, (c * 100 == inject_Z z)%Q -> a = c)) /\
  In (u, Some (Z2Qc 0)) (dropna (column Stats.rating_std stats)).
Proof.
  intros Hlen Hc. cbv zeta.
  set (g := filter (fun r => Ratings.userId r =? u) df) in *.
  assert (Hu : In u (map Ratings.userId df)).
  { destruct g as [|x g'] eqn:Eg; [cbn in Hlen; lia|].
    assert (Hx : In x (filter (fun r => Ratings.userId r =? u) df)).
    { fold g. rewrite Eg. left. reflexivity. }
    apply filter_In in Hx. destruct Hx as [Hx E]. apply Z.eqb_eq in E.
    rewrite <- E. apply in_map. exact Hx. }
  assert (Hconst : map Ratings.rating g = repeat c (length g)).
  { rewrite <- (length_map Ratings.rating g). apply constant_list.
    intros y Hy. apply in_map_iff in Hy. destruct Hy as [x [<- Hx]].
    apply filter_In in Hx. destruct Hx as [Hx E]. apply Z.eqb_eq in E.
    apply Hc; assumption. }
  assert (Hentry : In (u, Stats.mk (Z.of_nat (length g)) (Some (round 2 c))
                            (Some (Z2Qc 0)))
                      (rating_stats Ratings.userId df)).
  { apply rating_stats_In. split; [exact Hu|]. fold g.
    rewrite round_stats_agg by (apply group_ratings_nonempty; exact Hu).
    rewrite Hconst, repeat_length.
    destruct (length g) as [|[|k]] eqn:El; [lia|lia|].
    rewrite mean_repeat, sample_variance_repeat.
    destruct (Z.eqb_spec (Z.of_nat (S (S k))) 1) as [E|_]; [lia|].
    f_equal. f_equal. apply Qc_is_canon. reflexivity. }
  split.
  { exists (round 2 c). split; [exact Hentry|]. split.
    - destruct (round_cell c) as [k [E [Hnear _]]].
      rewrite E. revert Hnear. Qc_to_Q. intros Hnear. exact Hnear.
    - intros z Hz. apply (round_exact 2 _ z). exact Hz. }
  apply dropna_In. split; [|discriminate].
  apply column_In. eexists. split; [exact Hentry|reflexivity].
Qed.

(** X9 on a user who gave 4 twice. *)
Lemma X9_equal_ratings_std_zero_witness :
  In (7, Some (Z2Qc 0))
     (dropna (column Stats.rating_std
                (rating_stats Ratings.userId
                   [ Ratings.mk 7 1 (Z2Qc 4) 0; Ratings.mk 7 2 (Z2Qc 4) 0 ]))).
Proof.
  refine (proj2 (X9_equal_ratings_std_zero
                   [ Ratings.mk 7 1 (Z2Qc 4) 0; Ratings.mk 7 2 (Z2Qc 4) 0 ]
                   7 (Z2Qc 4) _ _)).
  - cbn. lia.
  - intros x [<-|[<-|[]]] _; reflexivity.
Defined.

(** ** Rows of the joined table *)

Lemma merge_cons (k : Z) (s : Stats.row) (left : Series Z Stats.row)
      (right : list (Z * string)) :
  map Popularity.movieId (merge ((k, s) :: left) right)
  = repeat k (count_occ Z.eq_dec (map fst right) k)
    ++ map Popularity.movieId (merge left right).
Proof.
  unfold merge. cbn [flat_map fst snd]. rewrite map_app. f_equal.
  induction right as [|[k' t] right IH]; [reflexivity|].
  cbn [filter map fst count_occ].
  destruct (Z.eqb_spec k' k) as [->|Hne].
  - destruct (Z.eq_dec k k) as [_|C]; [|congruence].
    cbn [map repeat Popularity.movieId]. rewrite IH. reflexivity.
  - destruct (Z.eq_dec k' k) as [C|_]; [congruence|]. exact IH.
Qed.

Lemma count_occ_repeat_Z (k i : Z) (n : nat) :
  count_occ Z.eq_dec (repeat k n) i = if Z.eq_dec k i then n else O.
Proof.
  induction n as [|n IH]; cbn [repeat count_occ].
  - destruct (Z.eq_dec k i); reflexivity.
  - rewrite IH. destruct (Z.eq_dec k i); reflexivity.
Qed.

Lemma merge_multiplicity (left : Series Z Stats.row) (right : list (Z * string))
      (i : Z) :
  count_occ Z.eq_dec (map Popularity.movieId (merge left right)) i
  = (count_occ Z.eq_dec (map fst left) i * count_occ Z.eq_dec (map fst right) i)%nat.
Proof.
  induction left as [|[k s] left IH]; [reflexivity|].
  rewrite merge_cons, count_occ_app, count_occ_repeat_Z, IH.
  cbn [map fst count_occ]. destruct (Z.eq_dec k i) as [->|_]; lia.
Qed.

Lemma merge_sorted (left : Series Z Stats.row) (right : list (Z * string)) :
  StronglySorted Z.le (map fst left) ->
  StronglySorted Z.le (map Popularity.movieId (merge left right)).
Proof.
  induction left as [|[k s] left IH]; intros Hs; [constructor|].
  cbn [map fst] in Hs. inversion Hs as [|? ? Hs' Hall]; subst.
  rewrite merge_cons. specialize (IH Hs').
  assert (Hge : Forall (Z.le k) (map Popularity.movieId (merge left right))).
  { rewrite Forall_forall in *. intros j Hj. apply Hall.
    apply in_map_iff in Hj. destruct Hj as [p [<- Hp]].
    apply merge_In in Hp. destruct Hp as [Hp _].
    apply (in_map fst) in Hp. exact Hp. }
  induction (count_occ Z.eq_dec (map fst right) k) as [|n IHn];
    cbn [repeat app]; [exact IH|].
  constructor; [exact IHn|].
  apply Forall_app. split; [|exact Hge].
  rewrite Forall_forall. intros j Hj. apply repeat_spec in Hj. lia.
Qed.

Lemma StronglySorted_le_lt (l : list Z) :
  StronglySorted Z.le l -> NoDup l -> StronglySorted Z.lt l.
Proof.
  induction 1 as [|x l Hs IH Hall]; intros Hnd; constructor;
    inversion Hnd as [|? ? Hx Hnd']; subst; [apply IH; exact Hnd'|].
  rewrite Forall_forall in *. intros y Hy. specialize (Hall y Hy).
  assert (x <> y) by (intros ->; contradiction). lia.
Qed.

Lemma StronglySorted_lt_le (l : list Z) :
  StronglySorted Z.lt l -> StronglySorted Z.le l.
Proof.
  induction 1 as [|x l Hs IH Hall]; constructor; [exact IH|].
  eapply Forall_impl; [|exact Hall]. intros y. apply Z.lt_le_incl.
Qed.

Lemma joined_multiplicity (df : list Ratings.row) (m : Movies.frame) (i : Z) :
  count_occ Z.eq_dec (map Popularity.movieId (merged_popularity df m)) i
  = if in_dec Z.eq_dec i (map Ratings.movieId df)
    then count_occ Z.eq_dec (map Movies.movieId (Movies.rows m)) i
    else O.
Proof.
  unfold merged_popularity, movie_stats. rewrite merge_multiplicity.
  change (map fst (rating_stats Ratings.movieId df))
    with (index (rating_stats Ratings.movieId df)).
  rewrite rating_stats_index.
  assert (Ht : map fst (movie_titles m) = map Movies.movieId (Movies.rows m)).
  { unfold movie_titles. rewrite map_map. reflexivity. }
  rewrite Ht.
  pose proof (groupby_index_NoDup Ratings.movieId df) as Hnd.
  destruct (in_dec Z.eq_dec i (map Ratings.movieId df)) as [Hin|Hnin].
  - apply (groupby_index_In Ratings.movieId) in Hin.
    rewrite (proj1 (NoDup_count_occ' Z.eq_dec _) Hnd i Hin). lia.
  - assert (H0 : count_occ Z.eq_dec (index (groupby Ratings.movieId df)) i = O).
    { apply count_occ_not_In. intros H. apply Hnin.
      apply (groupby_index_In Ratings.movieId). exact H. }
    rewrite H0. reflexivity.
Qed.

Lemma joined_sorted (df : list Ratings.row) (m : Movies.frame) :
  StronglySorted Z.le (map Popularity.movieId (merged_popularity df m)).
Proof.
  unfold merged_popularity, movie_stats. apply merge_sorted.
  change (map fst (rating_stats Ratings.movieId df))
    with (index (rating_stats Ratings.movieId df)).
  rewrite rating_stats_index.
  apply StronglySorted_lt_le, groupby_index_strict.
Qed.

(** X10. The joined popularity table has, for every item identifier, as
    many rows as the items table lists that identifier when the item is
    rated, and none when it is not: an identifier listed twice comes out
    twice.  Its rows are in ascending order of item identifier. *)
Theorem X10_rows_of_the_join (df : list Ratings.row) (m : Movies.frame) :
  let joined := map Popularity.movieId (merged_popularity df m) in
  (forall i,
      count_occ Z.eq_dec joined i
      = if in_dec Z.eq_dec i (map Ratings.movieId df)
        then count_occ Z.eq_dec (map Movies.movieId (Movies.rows m)) i
        else O) /\
  StronglySorted Z.le joined.
Proof.
  cbv zeta. split; [apply joined_multiplicity|apply joined_sorted].
Qed.

(** X11. When the items table lists no identifier twice, the joined
    popularity table has exactly one row for every item that is both rated
    and listed, in strictly ascending order of item identifier, and the
    selected popular items are distinct. *)
Theorem X11_join_on_distinct_items (df : list Ratings.row) (m : Movies.frame) :
  NoDup (map Movies.movieId (Movies.rows m)) ->
  let joined := map Popularity.movieId (merged_popularity df m) in
  StronglySorted Z.lt joined /\
  (forall i, In i joined <->
             In i (map Ratings.movieId df) /\
             In i (map Movies.movieId (Movies.rows m))) /\
  NoDup (popular_movies_ids (merged_popularity df m)).
Proof.
  intros Hnd. cbv zeta.
  pose proof (joined_multiplicity df m) as Hcount.
  pose proof (joined_sorted df m) as Hsorted.
  assert (Hjoined : NoDup (map Popularity.movieId (merged_popularity df m))).
  { apply (NoDup_count_occ Z.eq_dec). intros i. rewrite Hcount.
    destruct (in_dec Z.eq_dec i (map Ratings.movieId df)); [|lia].
    apply (NoDup_count_occ Z.eq_dec). exact Hnd. }
  split; [apply StronglySorted_le_lt; assumption|]. split.
  - intros i. rewrite (count_occ_In Z.eq_dec), Hcount.
    destruct (in_dec Z.eq_dec i (map Ratings.movieId df)) as [Hin|Hnin].
    + rewrite <- (count_occ_In Z.eq_dec). tauto.
    + split; [lia|tauto].
  - unfold popular_movies_ids, nlargest.
    set (s := sort_by _ (merged_popularity df m)).
    assert (Hs : NoDup (map Popularity.movieId s)).
    { eapply Permutation_NoDup; [|exact Hjoined].
      apply Permutation_map. symmetry. apply sort_by_perm. }
    rewrite <- (firstn_skipn 50 s), map_app in Hs.
    exact (NoDup_app_remove_r _ _ Hs).
Qed.

Lemma example_items_NoDup :
  NoDup (map Movies.movieId (Movies.rows (Movies.mk_frame example_movies None))).
Proof. exact NoDup_pair. Qed.

(** X11 on the worked example. *)
Lemma X11_join_on_distinct_items_witness :
  StronglySorted Z.lt
    (map Popularity.movieId
       (merged_popularity example_ratings (Movies.mk_frame example_movies None))).
Proof.
  exact (proj1 (X11_join_on_distinct_items example_ratings
                  (Movies.mk_frame example_movies None) example_items_NoDup)).
Defined.

(** ** Selections that take everything *)

Lemma nlargest_all {A : Type} (n : nat) (col : A -> Z) (l : list A) :
  (length l <= n)%nat -> Permutation (nlargest n col l) l.
Proof.
  intros H. unfold nlargest.
  rewrite firstn_all2 by (rewrite sort_by_length; exact H).
  apply sort_by_perm.
Qed.

Lemma rows_isin_all (col : Ratings.row -> Z) (ids : list Z) (df : list Ratings.row) :
  incl (map col df) ids -> rows_isin col ids df = Z.of_nat (length df).
Proof.
  intros H. unfold rows_isin, count_if. f_equal. f_equal. apply filter_all.
  intros x Hx. apply isin_In. apply H. apply in_map. exact Hx.
Qed.

Lemma whole_share (n : Z) : n <> 0 -> (Z2Qc n / Z2Qc n * Z2Qc 100)%Qc = Z2Qc 100.
Proof.
  intros Hn. pose proof (Z2Qc_nonzero n Hn) as Hnz.
  change (Z2Qc 0) with 0%Qc in Hnz. field. exact Hnz.
Qed.

Lemma rating_stats_length (key : Ratings.row -> Z) (df : list Ratings.row) :
  Z.of_nat (length (rating_stats key df)) = nunique (map key df).
Proof.
  unfold rating_stats, groupby, nunique. rewrite !length_map, sort_by_length.
  reflexivity.
Qed.

(** X12. In a run on a ratings table with at most 20 distinct users, every
    user is selected as a power user and the report says that they account
    for 100.0% of the ratings. *)
Theorem X12_few_users (fs : filesystem) (r : list Ratings.row)
        (m : list Movies.row) :
  ratings_csv fs = Some r -> movies_csv fs = Some m -> r <> [] ->
  nunique (map Ratings.userId r) <= 20 ->
  Permutation (power_users (rating_stats Ratings.userId r))
              (index (rating_stats Ratings.userId r)) /\
  In (Print ("Power users (top 20): " ++ fmt_int (nunique (map Ratings.userId r))
             ++ " users account for 100.0% of ratings"))
     (out (fst (run fs))).
Proof.
  intros Hr Hm Hne HU.
  assert (Hperm : Permutation (power_users (rating_stats Ratings.userId r))
                              (index (rating_stats Ratings.userId r))).
  { unfold power_users, index. apply Permutation_map. apply nlargest_all.
    pose proof (rating_stats_length Ratings.userId r). lia. }
  split; [exact Hperm|].
  rewrite (run_complete fs r m Hr Hm Hne). cbn [fst out].
  do 23 right. left.
  assert (Hlen : Z.of_nat (length (power_users (rating_stats Ratings.userId r)))
                 = nunique (map Ratings.userId r)).
  { rewrite (Permutation_length Hperm). unfold index. rewrite length_map.
    apply rating_stats_length. }
  assert (Hall : rows_isin Ratings.userId
                   (power_users (rating_stats Ratings.userId r)) r
                 = Z.of_nat (length r)).
  { apply rows_isin_all. intros u Hu.
    apply (Permutation_in _ (Permutation_sym Hperm)).
    rewrite rating_stats_index. apply groupby_index_In. exact Hu. }
  rewrite Hlen, Hall, whole_share; [reflexivity|].
  destruct r; [congruence|cbn [length]; lia].
Qed.

(** X12 on the worked example, which has two users. *)
Lemma X12_few_users_witness :
  In (Print "Power users (top 20): 2 users account for 100.0% of ratings")
     (out (fst (run example_fs))).
Proof.
  exact (proj2 (X12_few_users example_fs example_ratings example_movies
                  eq_refl eq_refl ltac:(discriminate) ltac:(discriminate))).
Defined.

(** X13. In a run where every rated item has a row in the items table and
    the joined popularity table has at most 50 rows, every row of that table
    is selected as a popular item and the report says that they account for
    100.0% of the ratings. *)
Theorem X13_few_items (fs : filesystem) (r : list Ratings.row)
        (m : list Movies.row) :
  ratings_csv fs = Some r -> movies_csv fs = Some m -> r <> [] ->
  incl (map Ratings.movieId r) (map Movies.movieId m) ->
  (length (merged_popularity r (Movies.mk_frame m None)) <= 50)%nat ->
  In (Print ("Popular movies (top 50): "
             ++ fmt_int (Z.of_nat (length (merged_popularity r
                                             (Movies.mk_frame m None))))
             ++ " movies account for 100.0% of ratings"))
     (out (fst (run fs))).
Proof.
  intros Hr Hm Hne Hincl Hlen.
  set (mp := merged_popularity r (Movies.mk_frame m None)) in *.
  assert (Hperm : Permutation (popular_movies_ids mp) (map Popularity.movieId mp)).
  { unfold popular_movies_ids. apply Permutation_map. apply nlargest_all. exact Hlen. }
  rewrite (run_complete fs r m Hr Hm Hne). cbn [fst out].
  do 24 right. left. fold mp.
  assert (Hl : length (popular_movies_ids mp) = length mp).
  { rewrite (Permutation_length Hperm). apply length_map. }
  assert (Hall : rows_isin Ratings.movieId (popular_movies_ids mp) r
                 = Z.of_nat (length r)).
  { apply rows_isin_all. intros i Hi.
    apply (Permutation_in _ (Permutation_sym Hperm)).
    apply (count_occ_In Z.eq_dec). unfold mp. rewrite joined_multiplicity.
    destruct (in_dec Z.eq_dec i (map Ratings.movieId r)) as [_|C]; [|contradiction].
    apply (count_occ_In Z.eq_dec). apply Hincl. exact Hi. }
  rewrite Hl, Hall, whole_share; [reflexivity|].
  destruct r; [congruence|cbn [length]; lia].
Qed.

(** X13 on the worked example, which has two items. *)
Lemma X13_few_items_witness :
  In (Print "Popular movies (top 50): 2 movies account for 100.0% of ratings")
     (out (fst (run example_fs))).
Proof.
  refine (X13_few_items example_fs example_ratings example_movies
            eq_refl eq_refl ltac:(discriminate) example_rated_listed _).
  cbn. lia.
Defined.

(** ** What the selected users account for *)

Lemma Zsum_indicator_absent (x : Z) (ks : list Z) :
  ~ In x ks -> Zsum (map (fun k => if Z.eqb k x then 1 else 0) ks) = 0.
Proof.
  induction ks as [|k ks IH]; intros H; [reflexivity|].
  cbn [map]. unfold Zsum in *. cbn [fold_right].
  destruct (Z.eqb_spec k x) as [->|_].
  - exfalso. apply H. left. reflexivity.
  - rewrite IH; [reflexivity|]. intros Hin. apply H. right. exact Hin.
Qed.

Lemma rows_isin_sum (col : Ratings.row -> Z) (ids : list Z) (df : list Ratings.row) :
  NoDup ids ->
  rows_isin col ids df
  = Zsum (map (fun k => count_if (Z.eqb k) (map col df)) ids).
Proof.
  intros Hnd. unfold rows_isin. induction df as [|x df IH].
  - unfold count_if. cbn. clear. induction ids as [|k ids IHk]; [reflexivity|].
    cbn [map]. unfold Zsum in *. cbn [fold_right]. rewrite <- IHk. reflexivity.
  - rewrite count_if_cons, IH. cbn [map].
    rewrite (map_ext (fun k => count_if (Z.eqb k) (col x :: map col df))
                     (fun k => (if Z.eqb k (col x) then 1 else 0)
                               + count_if (Z.eqb k) (map col df)))
      by (intros; apply count_if_cons).
    rewrite Zsum_map_add. f_equal.
    destruct (isin (col x) ids) eqn:E.
    + apply isin_In in E. symmetry. apply (Zsum_indicator _ Z.eqb_eq); assumption.
    + symmetry. apply Zsum_indicator_absent. intros Hin.
      apply isin_In in Hin. congruence.
Qed.

(** X14. The number of rating rows counted for the power-user share is the
    total of the rating counts of the selected users, taken from the
    per-user aggregate, and the selected users are distinct. *)
Theorem X14_power_users_account (df : list Ratings.row) :
  let selected :=
    nlargest 20 (fun kv : Z * Stats.row => Stats.num_ratings (snd kv))
             (rating_stats Ratings.userId df) in
  power_users (rating_stats Ratings.userId df) = index selected /\
  NoDup (index selected) /\
  rows_isin Ratings.userId (index selected) df
  = Zsum (map (fun kv => Stats.num_ratings (snd kv)) selected).
Proof.
  cbv zeta. set (stats := rating_stats Ratings.userId df).
  set (selected := nlargest 20 _ stats).
  assert (Hnd : NoDup (index selected)).
  { unfold selected, nlargest.
    set (s := sort_by _ stats).
    assert (Hs : NoDup (map fst s)).
    { eapply Permutation_NoDup.
      - apply Permutation_map. symmetry. apply sort_by_perm.
      - change (NoDup (index stats)). unfold stats.
        rewrite rating_stats_index. apply groupby_index_NoDup. }
    rewrite <- (firstn_skipn 20 s), map_app in Hs.
    exact (NoDup_app_remove_r _ _ Hs). }
  split; [reflexivity|]. split; [exact Hnd|].
  rewrite (rows_isin_sum _ _ _ Hnd). unfold index. rewrite map_map.
  f_equal. apply map_ext_in. intros [u s] Hin. cbn [fst snd].
  apply nlargest_In in Hin. unfold stats in Hin.
  apply rating_stats_In in Hin. destruct Hin as [Hu ->].
  unfold round_stats, agg_count_mean_std. cbn [Stats.num_ratings Stats.count].
  rewrite length_map. symmetry. apply group_length.
Qed.

(** ** Labels of a category string *)

Lemma split_length (sep : ascii) (s : string) :
  length (split sep s) = S (count_char sep s).
Proof.
  induction s as [|c s IH]; [reflexivity|].
  cbn [split count_char]. pose proof (split_nonempty sep s) as Hne.
  destruct (Ascii.eqb c sep).
  - cbn [length]. rewrite IH. reflexivity.
  - destruct (split sep s) as [|w ws]; [congruence|].
    cbn [length] in *. exact IH.
Qed.

Lemma split_without_sep (sep : ascii) (s : string) :
  count_char sep s = O -> split sep s = [s].
Proof.
  induction s as [|c s IH]; intros H; [reflexivity|].
  cbn [split count_char] in *.
  destruct (Ascii.eqb c sep); [discriminate H|].
  rewrite (IH H). reflexivity.
Qed.

Lemma split_append_sep (sep : ascii) (p t : string) :
  count_char sep p = O ->
  split sep (p ++ String sep t) = p :: split sep t.
Proof.
  induction p as [|c p IH]; intros H.
  - cbn [String.append split]. rewrite Ascii.eqb_refl. reflexivity.
  - cbn [String.append split count_char] in *.
    destruct (Ascii.eqb c sep); [discriminate H|].
    rewrite (IH H). reflexivity.
Qed.

(** X15. Splitting a category string gives one label more than the string
    has delimiters: a string without delimiter is a single label, itself,
    whatever it is (the empty string and a no-category sentinel
    included). *)
Theorem X15_number_of_labels (sep : ascii) (s : string) :
  length (split sep s) = S (count_char sep s) /\
  (split sep s = [s] <-> count_char sep s = O).
Proof.
  split; [apply split_length|]. split.
  - intros H. pose proof (split_length sep s) as Hl. rewrite H in Hl.
    cbn [length] in Hl. lia.
  - apply split_without_sep.
Qed.

(** X16. Splitting undoes joining: labels that contain no delimiter, at
    least one of them, joined by the delimiter and split again, are the
    labels that went in. *)
Theorem X16_split_of_joined_labels (sep : ascii) (labels : list string) :
  labels <> [] ->
  (forall l, In l labels -> count_char sep l = O) ->
  split sep (String.concat (String sep EmptyString) labels) = labels.
Proof.
  intros Hne Hclean. induction labels as [|l ls IH]; [congruence|].
  destruct ls as [|l' ls].
  - cbn [String.concat]. apply split_without_sep. apply Hclean. left. reflexivity.
  - change (String.concat (String sep EmptyString) (l :: l' :: ls))
      with (l ++ String sep (String.concat (String sep EmptyString) (l' :: ls)))%string.
    rewrite split_append_sep by (apply Hclean; left; reflexivity).
    f_equal. apply IH; [discriminate|].
    intros x Hx. apply Hclean. right. exact Hx.
Qed.

(** X16 on two genre labels. *)
Lemma X16_split_of_joined_labels_witness :
  split "|" "Action|Comedy" = ["Action"; "Comedy"]%string.
Proof.
  refine (X16_split_of_joined_labels "|" ["Action"; "Comedy"]%string _ _).
  - discriminate.
  - intros l [<-|[<-|[]]]; reflexivity.
Defined.

(** ** The size of the tally *)

Lemma Zsum_split_lengths (rows : list Movies.row) :
  Zsum (map (fun pieces : list string => Z.of_nat (length pieces))
            (map (fun r => split "|" (Movies.genres r)) rows))
  = Z.of_nat (length rows)
    + Z.of_nat (list_sum (map (fun r => count_char "|" (Movies.genres r)) rows)).
Proof.
  induction rows as [|r rows IH]; [reflexivity|].
  cbn [map list_sum length]. unfold Zsum in *. cbn [fold_right].
  rewrite IH, split_length. unfold list_sum. cbn [fold_right]. lia.
Qed.

Lemma single_labels_no_delimiter (rows : list Movies.row) :
  (forall r, In r rows -> split "|" (Movies.genres r) = [Movies.genres r]) ->
  list_sum (map (fun r => count_char "|" (Movies.genres r)) rows) = O.
Proof.
  induction rows as [|x rows IH]; intros H; [reflexivity|].
  cbn [map]. unfold list_sum in *. cbn [fold_right].
  pose proof (split_length "|" (Movies.genres x)) as Hl.
  rewrite (H x (or_introl eq_refl)) in Hl. cbn [length] in Hl.
  rewrite IH; [lia|]. intros r Hr. apply H. right. exact Hr.
Qed.

(** X17. The counts of the genre tally add up to the number of items plus
    the number of delimiters in all category strings: never less than the
    number of items, and exactly that number when no item has more than one
    category. *)
Theorem X17_size_of_the_tally (m : Movies.frame) :
  let tally := genre_counts (split_genres m) in
  let delimiters :=
    list_sum (map (fun r => count_char "|" (Movies.genres r)) (Movies.rows m)) in
  Zsum (map snd tally)
  = Z.of_nat (length (Movies.rows m)) + Z.of_nat delimiters /\
  Z.of_nat (length (Movies.rows m)) <= Zsum (map snd tally) /\
  (Zsum (map snd tally) = Z.of_nat (length (Movies.rows m)) <->
   forall r, In r (Movies.rows m) -> split "|" (Movies.genres r) = [Movies.genres r]).
Proof.
  cbv zeta.
  assert (Htotal : Zsum (map snd (genre_counts (split_genres m)))
                   = Z.of_nat (length (Movies.rows m))
                     + Z.of_nat (list_sum (map (fun r => count_char "|" (Movies.genres r))
                                               (Movies.rows m)))).
  { unfold genre_counts. rewrite all_genres_concat, Counter_map, map_map. cbn [snd].
    rewrite (Zsum_class_sizes _ String.eqb_eq).
    - rewrite length_concat_Zsum. apply Zsum_split_lengths.
    - apply unique_NoDup, String.eqb_eq.
    - intros x Hx. apply (unique_In _ String.eqb_eq). exact Hx. }
  split; [exact Htotal|]. split; [lia|].
  rewrite Htotal. split.
  - intros H r Hr. apply split_without_sep.
    assert (H0 : list_sum (map (fun r => count_char "|" (Movies.genres r))
                               (Movies.rows m)) = O) by lia.
    clear - H0 Hr. induction (Movies.rows m) as [|x rows IH]; [destruct Hr|].
    cbn [map] in H0. unfold list_sum in *. cbn [fold_right] in H0.
    destruct Hr as [->|Hr]; [lia|apply IH; [exact Hr|lia]].
  - intros H.
    pose proof (single_labels_no_delimiter (Movies.rows m) H) as H0.
    lia.
Qed.

(** ** The genre chart *)

Lemma StronglySorted_firstn {A : Type} (R : A -> A -> Prop) (n : nat) (l : list A) :
  StronglySorted R l -> StronglySorted R (firstn n l).
Proof.
  intros H. revert n. induction H as [|x l Hs IH Hall]; intros n.
  - rewrite firstn_nil. constructor.
  - destruct n as [|n]; [constructor|]. cbn [firstn]. constructor; [apply IH|].
    rewrite Forall_forall in *. intros y Hy. apply Hall.
    rewrite <- (firstn_skipn n l). apply in_or_app. left. exact Hy.
Qed.

(** X18. The genre chart has at most ten bars, with distinct labels and
    heights that never increase from left to right; the height of a bar is
    the number of occurrences of its label among the labels of all items,
    which is at least 1. *)
Theorem X18_genre_chart (m : Movies.frame) :
  let top := top_genres (split_genres m) in
  let labels := concat (split_genres m) in
  (length top <= 10)%nat /\
  NoDup (map fst top) /\
  StronglySorted (fun a b => b <= a) (map snd top) /\
  (forall l n, In (l, n) top ->
               n = Z.of_nat (count_occ string_dec labels l) /\ 1 <= n).
Proof.
  cbv zeta. unfold top_genres, most_common.
  set (tally := genre_counts (split_genres m)).
  set (s := sort_by (fun a b : string * Z => snd b <=? snd a) tally).
  assert (Hperm : Permutation s tally) by apply sort_by_perm.
  split; [apply firstn_le_length|]. split; [|split].
  - assert (Hs : NoDup (map fst s)).
    { eapply Permutation_NoDup.
      - apply Permutation_map. symmetry. exact Hperm.
      - unfold tally, genre_counts. apply Counter_NoDup. }
    rewrite <- (firstn_skipn 10 s), map_app in Hs.
    exact (NoDup_app_remove_r _ _ Hs).
  - apply StronglySorted_map, StronglySorted_firstn.
    destruct (sort_desc_stable snd tally) as [_ [Hsorted _]]. exact Hsorted.
  - intros l n Hin.
    assert (Ht : In (l, n) tally).
    { apply (Permutation_in _ Hperm).
      rewrite <- (firstn_skipn 10 s). apply in_or_app. left. exact Hin. }
    unfold tally, genre_counts in Ht. rewrite all_genres_concat in Ht.
    apply Counter_In in Ht. destruct Ht as [Hl ->].
    rewrite (count_if_eqb_count_occ _ String.eqb_eq string_dec).
    split; [reflexivity|].
    apply (count_occ_In string_dec) in Hl. lia.
Qed.

(** ** The report restates the overview *)

(** X19. In a run that reaches the filtering insights, the matrix
    dimensions printed there are the numbers of users and of rated items
    that the overview printed, and the matrix sparsity printed there is the
    overview's sparsity as a percentage: the overview prints a numeral with
    four decimals less than 0.0001 away from the sparsity, the insights a
    numeral with two decimals less than 0.01 away from a hundred times the
    same sparsity.  The counts are not recomputed or changed in between. *)
Theorem X19_insights_restate_overview (fs : filesystem) (r : list Ratings.row)
        (m : list Movies.row) :
  ratings_csv fs = Some r -> movies_csv fs = Some m -> r <> [] ->
  let U := nunique (map Ratings.userId r) in
  let M_rated := nunique (map Ratings.movieId r) in
  let N := Z.of_nat (length r) in
  let sparsity := (1 - Z2Qc N / Z2Qc (U * M_rated))%Qc in
  In (Print ("Users: " ++ fmt_int U)) (out (fst (run fs))) /\
  In (Print ("Movies (rated): " ++ fmt_int M_rated)) (out (fst (run fs))) /\
  In (Print ("Total ratings: " ++ fmt_int N)) (out (fst (run fs))) /\
  (exists (negative : bool) (k : Z),
      0 <= k /\
      In (Print ("Sparsity: " ++ fixed_point 4 negative k)) (out (fst (run fs))) /\
      (Qabs (fixed_point_value 4 negative k - sparsity) < 1 # 10000)%Q) /\
  In (Print ("Matrix dimensions: " ++ fmt_int U ++ " users × "
             ++ fmt_int M_rated ++ " movies")) (out (fst (run fs))) /\
  (exists (negative : bool) (k : Z),
      0 <= k /\
      In (Print ("Matrix sparsity: " ++ fixed_point 2 negative k ++ "%"))
         (out (fst (run fs))) /\
      (Qabs (fixed_point_value 2 negative k - sparsity * 100) < 1 # 100)%Q) /\
  n_users (fst (run fs)) = U /\
  n_movies_rated (fst (run fs)) = M_rated /\
  n_ratings (fst (run fs)) = N.
Proof.
  intros Hr Hm Hne. cbv zeta.
  rewrite (run_complete fs r m Hr Hm Hne).
  cbn [fst out n_users n_movies_rated n_ratings].
  set (sparsity := (1 - Z2Qc (Z.of_nat (length r))
                        / Z2Qc (nunique (map Ratings.userId r)
                                * nunique (map Ratings.movieId r)))%Qc).
  split; [do 2 right; left; reflexivity|].
  split; [do 4 right; left; reflexivity|].
  split; [do 5 right; left; reflexivity|].
  split.
  { destruct (fmt_f_digits 4 sparsity) as [negative [k [Hk [E Hnear]]]].
    exists negative, k. split; [exact Hk|]. split.
    - rewrite <- E. do 6 right. left. reflexivity.
    - eapply Qle_lt_trans; [exact Hnear|reflexivity]. }
  split; [do 21 right; left; reflexivity|].
  split.
  { destruct (fmt_f_digits 2 (sparsity * Z2Qc 100)) as [negative [k [Hk [E Hnear]]]].
    exists negative, k. split; [exact Hk|]. split.
    - rewrite <- E. do 22 right. left. reflexivity.
    - apply (Qle_lt_trans _ ((1 # 2) / inject_Z (pow10 2))); [|reflexivity].
      revert Hnear. Qc_to_Q. intros Hnear. exact Hnear. }
  repeat split.
Qed.

(** X19 on the worked example. *)
Lemma X19_insights_restate_overview_witness :
  In (Print "Users: 2") (out (fst (run example_fs))) /\
  In (Print "Movies (rated): 2") (out (fst (run example_fs))) /\
  In (Print "Matrix dimensions: 2 users × 2 movies") (out (fst (run example_fs))).
Proof.
  pose proof (X19_insights_restate_overview example_fs example_ratings
                example_movies eq_refl eq_refl ltac:(discriminate))
    as [H1 [H2 [_ [_ [H3 _]]]]].
  split; [exact H1|]. split; [exact H2|exact H3].
Defined.

(** ** Ratings of items that the items table does not list *)

Lemma joined_empty (df : list Ratings.row) (m : Movies.frame) :
  (forall i, In i (map Ratings.movieId df) ->
             ~ In i (map Movies.movieId (Movies.rows m))) ->
  merged_popularity df m = [].
Proof.
  intros H.
  destruct (merged_popularity df m) as [|p mp] eqn:E; [reflexivity|exfalso].
  assert (Hp : In p (merged_popularity df m)) by (rewrite E; left; reflexivity).
  apply merge_In in Hp. destruct Hp as [Hl Hr].
  apply (H (Popularity.movieId p)).
  - apply (in_map fst) in Hl. cbn [fst] in Hl. unfold movie_stats in Hl.
    change (map fst (rating_stats Ratings.movieId df))
      with (index (rating_stats Ratings.movieId df)) in Hl.
    rewrite rating_stats_index in Hl.
    apply (proj1 (groupby_index_In _ _ _)) in Hl. exact Hl.
  - unfold movie_titles in Hr. apply in_map_iff in Hr.
    destruct Hr as [row [Erow Hrow]]. inversion Erow as [[E1 E2]].
    apply in_map. exact Hrow.
Qed.

Lemma zero_share (n : Z) : (Z2Qc 0 / Z2Qc n * Z2Qc 100)%Qc = Z2Qc 0.
Proof. change (Z2Qc 0) with 0%Qc. unfold Qcdiv. ring. Qed.

(** X21. In a run where no rated item has a row in the items table, the
    joined popularity table is empty, its scatter has no point, no item is
    selected as popular, and the report says that 0 movies account for 0.0%
    of the ratings. *)
Theorem X21_no_rated_item_listed (fs : filesystem) (r : list Ratings.row)
        (m : list Movies.row) :
  ratings_csv fs = Some r -> movies_csv fs = Some m -> r <> [] ->
  (forall i, In i (map Ratings.movieId r) -> ~ In i (map Movies.movieId m)) ->
  snd (run fs) = Ok tt /\
  movie_popularity (fst (run fs)) = [] /\
  In (Scatter [] []) (out (fst (run fs))) /\
  In (Print "Popular movies (top 50): 0 movies account for 0.0% of ratings")
     (out (fst (run fs))).
Proof.
  intros Hr Hm Hne Hnone.
  pose proof (joined_empty r (Movies.mk_frame m None) Hnone) as Hempty.
  rewrite (run_complete fs r m Hr Hm Hne). cbn [fst snd out movie_popularity].
  rewrite Hempty.
  split; [reflexivity|]. split; [reflexivity|].
  split; [do 12 right; left; reflexivity|].
  do 24 right. left.
  change (popular_movies_ids []) with (@nil Z).
  change (rows_isin Ratings.movieId [] r)
    with (count_if (fun _ : Ratings.row => false) r).
  assert (H0 : count_if (fun _ : Ratings.row => false) r = 0).
  { unfold count_if. clear. induction r as [|x r IH]; [reflexivity|exact IH]. }
  rewrite H0, zero_share. reflexivity.
Qed.

(** X21 on the worked example with an items table that lists another
    item. *)
Lemma X21_no_rated_item_listed_witness :
  In (Print "Popular movies (top 50): 0 movies account for 0.0% of ratings")
     (out (fst (run (mk_fs (Some example_ratings)
                           (Some [Movies.mk 9 "T9" "Drama"]))))).
Proof.
  refine (proj2 (proj2 (proj2
            (X21_no_rated_item_listed
               (mk_fs (Some example_ratings) (Some [Movies.mk 9 "T9" "Drama"]))
               example_ratings [Movies.mk 9 "T9" "Drama"]
               eq_refl eq_refl ltac:(discriminate) _)))).
  intros i Hi [E|[]]. cbn in Hi, E. subst i.
  destruct Hi as [H|[H|[H|[]]]]; discriminate H.
Defined.
